(** * Realtime voice client: capture adapter, control channel, playback relay
      and session lifecycle of [realtime_client.py]

    The development embeds the orchestration code of
    [04-web-rtc-minimal-app/realtime_client.py] and states its properties.
    The libraries the client drives (the peer connection, the audio devices,
    the HTTP client, the JSON decoder) are external: their visible state is
    kept in records and their results are supplied by an environment. *)

From Stdlib Require Import ZArith String Ascii Bool Lia QArith List Sorted.
Import ListNotations.

Set Warnings "-register-all".

Local Open Scope string_scope.
Local Open Scope list_scope.
Local Open Scope Z_scope.

(** ** Python values shared by the modules *)

Module Py.

(** Exceptions the client can meet.  [CancelledError] and
    [KeyboardInterrupt] derive from [BaseException] only. *)
Inductive exn : Type :=
| QueueFull
| QueueEmpty
| JSONDecodeError
| AttributeError
| KeyError (key : string)
| TypeError
| ValueError
| RuntimeError
| HTTPStatusError (status_code : Z)
| ConnectError
| MediaStreamError
| PortAudioError
| InvalidStateError
| CancelledError
| KeyboardInterrupt.

(** [isinstance(e, Exception)] *)
Definition is_Exception (e : exn) : bool :=
  match e with
  | CancelledError | KeyboardInterrupt => false
  | _ => true
  end.

Inductive result (A : Type) : Type :=
| Ok (a : A)
| Raise (e : exn).
Arguments Ok {A} a.
Arguments Raise {A} e.

(** JSON documents as [json.loads] builds them: a dict keeps its items
    in insertion order and its keys are unique. *)
Inductive json : Type :=
| JNull
| JBool (b : bool)
| JInt (n : Z)
| JFloat (literal : string)
| JString (s : string)
| JArray (l : list json)
| JObject (d : list (string * json)).

Fixpoint dict_get (d : list (string * json)) (k : string) : option json :=
  match d with
  | [] => None
  | (k', v) :: d' => if String.eqb k' k then Some v else dict_get d' k
  end.

(** [d[k] = v] on a dict: an existing key keeps its position. *)
Fixpoint dict_set (d : list (string * json)) (k : string) (v : json)
  : list (string * json) :=
  match d with
  | [] => [(k, v)]
  | (k', v') :: d' =>
      if String.eqb k' k then (k', v) :: d' else (k', v') :: dict_set d' k v
  end.

(** [obj.get(k)]: only a dict has the method. *)
Definition get (obj : json) (k : string) : result (option json) :=
  match obj with
  | JObject d => Ok (dict_get d k)
  | _ => Raise AttributeError
  end.

(** [obj[k]] with a string key. *)
Definition getitem (obj : json) (k : string) : result json :=
  match obj with
  | JObject d =>
      match dict_get d k with
      | Some v => Ok v
      | None => Raise (KeyError k)
      end
  | _ => Raise TypeError
  end.

(** [v == s] where [v] is the result of [.get] and [s] a [str]. *)
Definition eq_str (v : option json) (s : string) : bool :=
  match v with
  | Some (JString s') => String.eqb s' s
  | _ => false
  end.

Definition is_str (v : json) : bool :=
  match v with JString _ => true | _ => false end.

End Py.

(** ** [asyncio.Queue] *)

Module AsyncQueue.
Import Py.

(** [maxsize <= 0] means unbounded. *)
Record t (A : Type) : Type := mk {
  items : list A;
  maxsize : Z
}.
Arguments mk {A}.
Arguments items {A}.
Arguments maxsize {A}.

Definition create {A} (maxsize : Z) : t A := mk [] maxsize.

Definition qsize {A} (q : t A) : Z := Z.of_nat (length (items q)).

Definition empty {A} (q : t A) : bool :=
  match items q with [] => true | _ => false end.

Definition full {A} (q : t A) : bool :=
  if maxsize q <=? 0 then false else maxsize q <=? qsize q.

Definition put_nowait {A} (q : t A) (x : A) : result (t A) :=
  if full q then Raise QueueFull
  else Ok (mk (items q ++ [x]) (maxsize q)).

Definition get_nowait {A} (q : t A) : result (A * t A) :=
  match items q with
  | [] => Raise QueueEmpty
  | x :: rest => Ok (x, mk rest (maxsize q))
  end.

End AsyncQueue.

(** ** Sound device streams *)

Module Device.

(** A stream between construction and [close()] holds the device. *)
Inductive status : Type := Active | Stopped | Closed.

Definition is_open (s : status) : bool :=
  match s with Closed => false | _ => true end.

End Device.

(** ** [MicTrack]: the capture adapter *)

Module Capture.
Import Py.

(** One mono block delivered by the capture stream: signed 16-bit samples. *)
Definition block : Type := list Z.

(** The block size the capture stream is opened with: 20 ms at 24 kHz. *)
Definition blocksize : nat := 480.

Record AudioFrame : Type := mkFrame {
  format : string;
  layout : string;
  samples : nat;
  plane : list Z;           (* bytes of planes[0] *)
  sample_rate : Z;
  pts : Z
}.

Record MicTrack : Type := mkTrack {
  rate : Z;
  channels : Z;
  _queue : AsyncQueue.t block;
  _pts : Z;
  _stream : Device.status;
  ended : bool               (* MediaStreamTrack's own flag *)
}.

(** [MicTrack.__init__] *)
Definition init (rate : Z) : MicTrack :=
  {| rate := rate;
     channels := 1;
     _queue := AsyncQueue.create 8;
     _pts := 0;
     _stream := Device.Active;
     ended := false |}.

Definition default_rate : Z := 24000.

Definition with_queue (t : MicTrack) (q : AsyncQueue.t block) : MicTrack :=
  {| rate := rate t; channels := channels t; _queue := q;
     _pts := _pts t; _stream := _stream t; ended := ended t |}.

(** [MicTrack._callback]: only [QueueFull] is handled. *)
Definition _callback (t : MicTrack) (indata : block) : result MicTrack :=
  match AsyncQueue.put_nowait (_queue t) indata with
  | Ok q => Ok (with_queue t q)
  | Raise QueueFull => Ok t
  | Raise e => Raise e
  end.

(** [ndarray.tobytes()] of an int16 array: two bytes per sample, two's
    complement, low byte first. *)
Definition sample_bytes (s : Z) : list Z :=
  let u := s mod 65536 in [u mod 256; u / 256].

Fixpoint tobytes (pcm : block) : list Z :=
  match pcm with
  | [] => []
  | s :: rest => sample_bytes s ++ tobytes rest
  end.

Definition sample_of_bytes (lo hi : Z) : Z :=
  let u := lo + 256 * hi in
  if u <? 32768 then u else u - 65536.

Fixpoint frombytes (bs : list Z) : block :=
  match bs with
  | lo :: hi :: rest => sample_of_bytes lo hi :: frombytes rest
  | _ => []
  end.

(** [MicTrack.recv]: [None] when the queue is empty and the caller
    stays suspended in [await self._queue.get()]. *)
Definition recv (t : MicTrack) : option (AudioFrame * MicTrack) :=
  match AsyncQueue.get_nowait (_queue t) with
  | Raise _ => None
  | Ok (pcm, q) =>
      let frame :=
        {| format := "s16"; layout := "mono"; samples := length pcm;
           plane := tobytes pcm;
           sample_rate := rate t;
           pts := _pts t |} in
      Some (frame,
            {| rate := rate t; channels := channels t; _queue := q;
               _pts := _pts t + Z.of_nat (length pcm);
               _stream := _stream t; ended := ended t |})
  end.

(** What the two execution contexts do to a track. *)
Inductive op : Type :=
| Callback (indata : block)
| Recv.

Definition step (t : MicTrack) (o : op) : MicTrack :=
  match o with
  | Callback b => match _callback t b with Ok t' => t' | Raise _ => t end
  | Recv => match recv t with Some (_, t') => t' | None => t end
  end.

Definition run (t : MicTrack) (ops : list op) : MicTrack :=
  fold_left step ops t.

(** A block is dropped when the enqueue attempt met a full queue. *)
Definition dropped_by (t : MicTrack) (b : block) : bool :=
  match AsyncQueue.put_nowait (_queue t) b with
  | Raise QueueFull => true
  | _ => false
  end.

(** Successive callbacks with no read in between; the second component
    lists the dropped blocks in arrival order. *)
Fixpoint callbacks (t : MicTrack) (bs : list block) : MicTrack * list block :=
  match bs with
  | [] => (t, [])
  | b :: rest =>
      let t' := step t (Callback b) in
      let '(t'', dropped) := callbacks t' rest in
      (t'', if dropped_by t b then b :: dropped else dropped)
  end.

(** [n] successive [recv()] calls; stops early if one would suspend. *)
Fixpoint recvs (n : nat) (t : MicTrack) : list AudioFrame * MicTrack :=
  match n with
  | O => ([], t)
  | S n' =>
      match recv t with
      | None => ([], t)
      | Some (f, t') =>
          let '(fs, t'') := recvs n' t' in (f :: fs, t'')
      end
  end.

(** Timestamps expected for a list of blocks read from [start]. *)
Fixpoint pts_from (start : Z) (bs : list block) : list Z :=
  match bs with
  | [] => []
  | b :: rest => start :: pts_from (start + Z.of_nat (length b)) rest
  end.

Definition int16 (s : Z) : Prop := -32768 <= s <= 32767.

(** The queue of a capture track keeps the bound it was built with. *)
Definition bounded (t : MicTrack) : Prop :=
  AsyncQueue.maxsize (_queue t) = 8
  /\ (length (AsyncQueue.items (_queue t)) <= 8)%nat.

(** The blocks a drop-oldest queue of capacity 8 would have lost after
    [bs] arrived: the oldest ones, as many as exceed the capacity. *)
Definition oldest_excess (bs : list block) : list block :=
  firstn (length bs - 8) bs.

Definition two_blocks : list block := [[1; -2; 3]; [-32768; 32767]].

(** Nine one-sample blocks, numbered in arrival order. *)
Definition nine_blocks : list block :=
  [[0]; [1]; [2]; [3]; [4]; [5]; [6]; [7]; [8]].

End Capture.

(** ** State and exceptions

    A method is a function from the state it works on to its outcome and the
    state it leaves: an exception does not undo the assignments before it. *)

Module Eff.
Import Py.

Definition M (S A : Type) : Type := S -> result A * S.

Definition ret {S A} (a : A) : M S A := fun s => (Ok a, s).

Definition raise {S A} (e : exn) : M S A := fun s => (Raise e, s).

Definition bind {S A B} (m : M S A) (k : A -> M S B) : M S B :=
  fun s =>
    match m s with
    | (Ok a, s') => k a s'
    | (Raise e, s') => (Raise e, s')
    end.

Definition lift {S A} (r : result A) : M S A := fun s => (r, s).

Definition modify {S} (f : S -> S) : M S unit := fun s => (Ok tt, f s).

Definition gets {S A} (f : S -> A) : M S A := fun s => (Ok (f s), s).

(** [try: body except <class>: handler] where [catches] decides the class. *)
Definition try_except {S A} (body : M S A) (catches : exn -> bool)
    (handler : exn -> M S A) : M S A :=
  fun s =>
    match body s with
    | (Ok a, s') => (Ok a, s')
    | (Raise e, s') => if catches e then handler e s' else (Raise e, s')
    end.

(** [try: body finally: cleanup]: an exception of the cleanup replaces
    the outcome of the body. *)
Definition try_finally {S A} (body : M S A) (cleanup : M S unit) : M S A :=
  fun s =>
    match body s with
    | (r, s') =>
        match cleanup s' with
        | (Ok _, s'') => (r, s'')
        | (Raise e, s'') => (Raise e, s'')
        end
    end.

(** [if c: body] *)
Definition when {S} (c : bool) (body : M S unit) : M S unit :=
  if c then body else ret tt.

End Eff.

Declare Scope eff_scope.
Delimit Scope eff_scope with eff.
Notation "x <- c ;; k" := (Eff.bind c (fun x => k))
  (at level 100, c at next level, right associativity) : eff_scope.
Notation "c ;; k" := (Eff.bind c (fun _ => k))
  (at level 100, right associativity) : eff_scope.

(** ** Control channel: the message handler and [transcripts()] *)

Module Control.
Import Py.

(** What the event loop has been asked to run. *)
Inductive task : Type :=
| PutTranscript (v : json)    (* [create_task(self._transcripts.put(v))] *)
| ResumeConsumer.             (* the consumer's getter future was resolved *)

(** Where the task that iterates [transcripts()] stands. *)
Inductive consumer : Type :=
| Elsewhere                   (* not inside [get()] *)
| Waiting                     (* suspended in [get()] on an empty queue *)
| Woken.                      (* its getter resolved, resumption scheduled *)

Record loop : Type := mkLoop {
  ready : list task;                    (* the loop's FIFO of callbacks *)
  _transcripts : AsyncQueue.t json;
  putters : list json;                  (* puts suspended on a full queue *)
  listener : consumer;
  yielded : list json                   (* what [transcripts()] has yielded *)
}.

(** A new client: [asyncio.Queue()] has [maxsize = 0]. *)
Definition init : loop :=
  {| ready := []; _transcripts := AsyncQueue.create 0; putters := [];
     listener := Elsewhere; yielded := [] |}.

Definition with_ready (l : loop) (r : list task) : loop :=
  {| ready := r; _transcripts := _transcripts l; putters := putters l;
     listener := listener l; yielded := yielded l |}.

(** [asyncio.create_task]: the first step of the task goes to the back of
    the ready queue. *)
Definition create_task (tk : task) : Eff.M loop unit :=
  Eff.modify (fun l => with_ready l (ready l ++ [tk])).

(** One advance of [transcripts()]: [yield await self._transcripts.get()]. *)
Definition advance (l : loop) : loop :=
  match AsyncQueue.get_nowait (_transcripts l) with
  | Ok (v, q) =>
      (* [get_nowait] wakes the first suspended put *)
      {| ready := ready l ++ match putters l with
                             | w :: _ => [PutTranscript w]
                             | [] => []
                             end;
         _transcripts := q; putters := tl (putters l);
         listener := Elsewhere; yielded := yielded l ++ [v] |}
  | Raise _ =>
      {| ready := ready l; _transcripts := _transcripts l;
         putters := putters l; listener := Waiting; yielded := yielded l |}
  end.

(** [Queue.put]: enqueue and wake the waiting getter, or suspend on a
    full queue. *)
Definition put (v : json) (l : loop) : loop :=
  match AsyncQueue.put_nowait (_transcripts l) v with
  | Ok q =>
      match listener l with
      | Waiting =>
          {| ready := ready l ++ [ResumeConsumer]; _transcripts := q;
             putters := putters l; listener := Woken; yielded := yielded l |}
      | c =>
          {| ready := ready l; _transcripts := q; putters := putters l;
             listener := c; yielded := yielded l |}
      end
  | Raise _ =>
      {| ready := ready l; _transcripts := _transcripts l;
         putters := putters l ++ [v]; listener := listener l;
         yielded := yielded l |}
  end.

Definition run_task (tk : task) (l : loop) : loop :=
  match tk with
  | PutTranscript v => put v l
  | ResumeConsumer => advance l
  end.

(** The loop runs the callback at the head of its ready queue. *)
Definition tick (l : loop) : loop :=
  match ready l with
  | [] => l
  | tk :: rest => run_task tk (with_ready l rest)
  end.

(** The consumer asks the generator for its next item. *)
Definition next (l : loop) : loop :=
  match listener l with
  | Elsewhere => advance l
  | _ => l
  end.

(** The recognised shape, read off a decoded document: the value under
    ["text"]["value"] of an object whose ["type"] is ["text"]. *)
Definition shape_value (msg : json) : option json :=
  match msg with
  | JObject d =>
      if eq_str (dict_get d "type") "text" then
        match dict_get d "text" with
        | Some (JObject t) => dict_get t "value"
        | _ => None
        end
      else None
  | _ => None
  end.

Definition type_is_text (msg : json) : bool :=
  match msg with
  | JObject d => eq_str (dict_get d "type") "text"
  | _ => false
  end.

(** Transcript values accepted so far, oldest first: yielded, queued, or
    carried by a put that is scheduled or suspended. *)
Fixpoint pending (r : list task) : list json :=
  match r with
  | [] => []
  | PutTranscript v :: r' => v :: pending r'
  | ResumeConsumer :: r' => pending r'
  end.

Definition accepted (l : loop) : list json :=
  yielded l ++ AsyncQueue.items (_transcripts l) ++ putters l ++ pending (ready l).

(** Resumptions of the consumer waiting in the ready queue. *)
Fixpoint resumes (r : list task) : nat :=
  match r with
  | [] => 0
  | ResumeConsumer :: r' => S (resumes r')
  | PutTranscript _ :: r' => resumes r'
  end.

(** What holds of the loop of a client whose transcript queue is the
    unbounded one it was built with: no put is ever suspended, a waiting
    consumer faces an empty queue, and a woken one has exactly one
    resumption scheduled and something to read. *)
Record wf (l : loop) : Prop := {
  wf_max : AsyncQueue.maxsize (_transcripts l) = 0;
  wf_putters : putters l = [];
  wf_listener :
    match listener l with
    | Waiting =>
        AsyncQueue.items (_transcripts l) = [] /\ resumes (ready l) = 0%nat
    | Woken =>
        AsyncQueue.items (_transcripts l) <> [] /\ resumes (ready l) = 1%nat
    | Elsewhere => resumes (ready l) = 0%nat
    end
}.

(** Callbacks still to run before the ready queue is empty. *)
Definition backlog (l : loop) : nat :=
  (length (ready l) + match listener l with Waiting => 1 | _ => 0 end)%nat.

Section Handler.

(** [json.loads]; [None] stands for its [JSONDecodeError]. *)
Variable json_loads : string -> option json.

Definition loads (data : string) : result json :=
  match json_loads data with
  | Some v => Ok v
  | None => Raise JSONDecodeError
  end.

Local Open Scope eff_scope.

(** [_on_message], the handler registered on every data channel. *)
Definition _on_message (data : string) : Eff.M loop unit :=
  Eff.try_except
    (msg <- Eff.lift (loads data) ;;
     ty <- Eff.lift (get msg "type") ;;
     Eff.when (eq_str ty "text")
       (text <- Eff.lift (getitem msg "text") ;;
        value <- Eff.lift (getitem text "value") ;;
        create_task (PutTranscript value)))
    is_Exception
    (fun _ => Eff.ret tt).

Inductive event : Type :=
| Message (data : string)   (* a message arrives on the data channel *)
| Tick                      (* the loop runs its next ready callback *)
| Next.                     (* the consumer advances [transcripts()] *)

Definition on_event (l : loop) (e : event) : loop :=
  match e with
  | Message data => snd (_on_message data l)
  | Tick => tick l
  | Next => next l
  end.

Definition run (l : loop) (evs : list event) : loop :=
  fold_left on_event evs l.

(** The values of the recognised messages of a trace, in receipt order. *)
Fixpoint received (evs : list event) : list json :=
  match evs with
  | [] => []
  | Message data :: evs' =>
      match json_loads data with
      | Some msg =>
          match shape_value msg with
          | Some v => v :: received evs'
          | None => received evs'
          end
      | None => received evs'
      end
  | _ :: evs' => received evs'
  end.

(** Let the loop run [n] callbacks, then let the consumer advance [n]
    times. *)
Definition drain (n : nat) : list event := repeat Tick n ++ repeat Next n.

End Handler.

(** A consumer that started iterating on a new client: it is suspended
    in [get()]. *)
Definition listening : loop := next init.

End Control.

(** ** Calls into the external libraries

    Each call site may raise, as the environment decides; its effect on the
    modelled state happens only when it returns. *)

Module Ext.
Import Py.

Inductive site : Type :=
| SessionPost            (* [cli.post] of the session request *)
| MicTrackInit           (* [MicTrack()]: opens and starts the capture stream *)
| AddTrack               (* [pc.addTrack] *)
| CreateOffer            (* [pc.createOffer] *)
| SetLocalDescription    (* [pc.setLocalDescription] *)
| HandshakePost          (* [cli.post] of the SDP offer *)
| SetRemoteDescription   (* [pc.setRemoteDescription] *)
| SpeakerOpen            (* [sd.OutputStream(...)] *)
| SpeakerStart           (* [speaker.start()] *)
| SpeakerWrite           (* [speaker.write(pcm)] *)
| SpeakerStop            (* [.stop()] of a playback stream *)
| SpeakerClose           (* [.close()] of a playback stream *)
| TrackStop              (* [await super().stop()] in [MicTrack.stop] *)
| MicStreamStop          (* [self._stream.stop()] in [MicTrack.stop] *)
| MicStreamClose         (* [self._stream.close()] in [MicTrack.stop] *)
| PcClose.               (* [await self.pc.close()] *)

Definition site_eqb (a b : site) : bool :=
  match a, b with
  | SessionPost, SessionPost | MicTrackInit, MicTrackInit
  | AddTrack, AddTrack | CreateOffer, CreateOffer
  | SetLocalDescription, SetLocalDescription
  | HandshakePost, HandshakePost
  | SetRemoteDescription, SetRemoteDescription
  | SpeakerOpen, SpeakerOpen | SpeakerStart, SpeakerStart
  | SpeakerWrite, SpeakerWrite | SpeakerStop, SpeakerStop
  | SpeakerClose, SpeakerClose | TrackStop, TrackStop
  | MicStreamStop, MicStreamStop | MicStreamClose, MicStreamClose
  | PcClose, PcClose => true
  | _, _ => false
  end.

Definition faults : Type := site -> option exn.

(** Every external call returns. *)
Definition quiet : faults := fun _ => None.

(** Only the call at [s] raises, with [e]. *)
Definition failing (s : site) (e : exn) : faults :=
  fun s' => if site_eqb s s' then Some e else None.

Definition call {S} (f : faults) (s : site) (effect : S -> S) : Eff.M S unit :=
  fun st =>
    match f s with
    | Some e => (Raise e, st)
    | None => (Ok tt, effect st)
    end.

End Ext.

(** ** The playback relay [_play] *)

Module Playback.
Import Py.

Inductive dtype : Type := uint8 | int16 | int32 | float32 | float64.

Definition dtype_eqb (a b : dtype) : bool :=
  match a, b with
  | uint8, uint8 | int16, int16 | int32, int32
  | float32, float32 | float64, float64 => true
  | _, _ => false
  end.

(** A numpy array: its element type, its shape and the numbers it holds,
    row by row.  A float32 holds every int16 and every int16 divided by
    2^15 exactly, so the rationals below are the stored values. *)
Record ndarray : Type := mkArray {
  dt : dtype;
  shape : nat * nat;
  values : list Q
}.

(** The numbers an int16 array can hold. *)
Definition int16_value (v : Q) : Prop :=
  Qden v = 1%positive /\ -32768 <= Qnum v <= 32767.

(** [pcm.astype("float32") / 32768.0] *)
Definition to_unit_float (pcm : ndarray) : ndarray :=
  {| dt := float32; shape := shape pcm;
     values := map (fun v => (v / (32768 # 1))%Q) (values pcm) |}.

(** [if pcm.dtype == np.int16: pcm = pcm.astype("float32") / 32768.0] *)
Definition rescale (pcm : ndarray) : ndarray :=
  if dtype_eqb (dt pcm) int16 then to_unit_float pcm else pcm.

(** [pcm.reshape(-1, cols)] *)
Definition reshape (pcm : ndarray) (cols : nat) : result ndarray :=
  let size := length (values pcm) in
  match cols with
  | O => Raise ValueError
  | S _ =>
      if Nat.eqb (size mod cols) 0
      then Ok {| dt := dt pcm; shape := (size / cols, cols)%nat;
                 values := values pcm |}
      else Raise ValueError
  end.

(** An inbound frame: what the relay reads off it. *)
Record Frame : Type := mkFrame {
  sample_rate : Z;
  layout_channels : nat;      (* [len(frame.layout.channels)] *)
  to_ndarray : ndarray
}.

Record OutputStream : Type := mkStream {
  status : Device.status;
  samplerate : Z;
  channels : nat;
  written : list ndarray
}.

Definition with_status (st : Device.status) (s : OutputStream) : OutputStream :=
  {| status := st; samplerate := samplerate s; channels := channels s;
     written := written s |}.

Definition write (pcm : ndarray) (s : OutputStream) : OutputStream :=
  {| status := status s; samplerate := samplerate s; channels := channels s;
     written := written s ++ [pcm] |}.

(** The variable [speaker] of one [_on_track] activation. *)
Definition player : Type := option OutputStream.

(** The outcome of one [await track.recv()]. *)
Inductive received : Type :=
| Got (frame : Frame)
| Failed (e : exn).

Section Relay.

Variable env : Ext.faults.

Local Open Scope eff_scope.

(** The body of the [while True] loop, after the frame was received. *)
Definition play_frame (frame : Frame) : Eff.M player unit :=
  sp <- Eff.gets (fun p : player => p) ;;
  match sp with
   | None =>
       Ext.call env Ext.SpeakerOpen
         (fun _ => Some {| status := Device.Stopped;
                           samplerate := sample_rate frame;
                           channels := layout_channels frame;
                           written := [] |}) ;;
       Ext.call env Ext.SpeakerStart (option_map (with_status Device.Active))
   | Some _ => Eff.ret tt
   end ;;
  let pcm := rescale (to_ndarray frame) in
  sp <- Eff.gets (fun p : player => p) ;;
  match sp with
  | Some speaker =>
      pcm <- Eff.lift (reshape pcm (channels speaker)) ;;
      Ext.call env Ext.SpeakerWrite (option_map (write pcm))
  | None => Eff.raise AttributeError
  end.

(** The loop over the frames that arrive; [Ok] when they run out and the
    task is suspended in [track.recv()]. *)
Fixpoint play_loop (inputs : list received) : Eff.M player unit :=
  match inputs with
  | [] => Eff.ret tt
  | Failed e :: _ => Eff.raise e
  | Got frame :: rest => play_frame frame ;; play_loop rest
  end.

(** The [finally] clause. *)
Definition release : Eff.M player unit :=
  sp <- Eff.gets (fun p : player => p) ;;
  match sp with
  | Some _ =>
      Ext.call env Ext.SpeakerStop (option_map (with_status Device.Stopped)) ;;
      Ext.call env Ext.SpeakerClose (option_map (with_status Device.Closed))
  | None => Eff.ret tt
  end.

Inductive outcome : Type :=
| Suspended               (* waiting for the next frame *)
| Returned                (* the task has finished *)
| Escaped (e : exn).      (* the task died of [e] *)

Definition is_MediaStreamError (e : exn) : bool :=
  match e with MediaStreamError => true | _ => false end.

(** [_play], run on the frames and failures [track.recv()] delivers. *)
Definition _play (inputs : list received) (p : player) : outcome * player :=
  match play_loop inputs p with
  | (Ok _, p') => (Suspended, p')
  | (Raise e, p') =>
      match Eff.try_finally
              (Eff.try_except (Eff.raise e) is_MediaStreamError
                 (fun _ => Eff.ret tt))
              release p' with
      | (Ok _, p'') => (Returned, p'')
      | (Raise e', p'') => (Escaped e', p'')
      end
  end.

End Relay.

Definition holds_device (p : player) : bool :=
  match p with
  | Some s => Device.is_open (status s)
  | None => false
  end.

(** A 16-bit mono frame of four samples, and a float frame. *)
Definition s16_frame : Frame :=
  {| sample_rate := 24000; layout_channels := 1;
     to_ndarray := {| dt := int16; shape := (1, 4)%nat;
                      values := [(-32768) # 1; 0 # 1; 16384 # 1; 32767 # 1]%Q |} |}.

Definition flt_frame : Frame :=
  {| sample_rate := 24000; layout_channels := 1;
     to_ndarray := {| dt := float32; shape := (1, 2)%nat;
                      values := [1 # 2; (-3) # 4]%Q |} |}.

End Playback.

(** ** [AzureRealtimeClient]: session, connection and teardown *)

Module Lifecycle.
Import Py.

(** What is seen of the peer connection. *)
Record PeerConnection : Type := mkPc {
  closed : bool;
  senders : nat;                         (* tracks given to [addTrack] *)
  track_handler : bool;                  (* [on("track")] registered *)
  datachannel_handler : bool;            (* [on("datachannel")] registered *)
  localDescription : option string;
  remoteDescription : option string
}.

Definition new_pc : PeerConnection :=
  {| closed := false; senders := 0; track_handler := false;
     datachannel_handler := false;
     localDescription := None; remoteDescription := None |}.

(** An offer was set and neither an answer arrived nor was the connection
    closed. *)
Definition half_open (c : PeerConnection) : bool :=
  negb (closed c)
  && match localDescription c, remoteDescription c with
     | Some _, None => true
     | _, _ => false
     end.

Record AzureRealtimeClient : Type := mkClient {
  pc : PeerConnection;
  _transcripts : AsyncQueue.t json;
  _mic_track : option Capture.MicTrack;
  _speaker_stream : option Playback.OutputStream;
  session_id : option json;
  _bearer : option json
}.

(** [AzureRealtimeClient.__init__] *)
Definition init : AzureRealtimeClient :=
  {| pc := new_pc; _transcripts := AsyncQueue.create 0;
     _mic_track := None; _speaker_stream := None;
     session_id := None; _bearer := None |}.

(** The client together with the [speaker] variables of the relay tasks
    its track handler has started. *)
Record world : Type := mkWorld {
  self : AzureRealtimeClient;
  relays : list Playback.player
}.

Definition start : world := {| self := init; relays := [] |}.

Definition on_self (f : AzureRealtimeClient -> AzureRealtimeClient) (w : world)
  : world :=
  {| self := f (self w); relays := relays w |}.

Definition set_pc (f : PeerConnection -> PeerConnection)
    (c : AzureRealtimeClient) : AzureRealtimeClient :=
  {| pc := f (pc c); _transcripts := _transcripts c;
     _mic_track := _mic_track c; _speaker_stream := _speaker_stream c;
     session_id := session_id c; _bearer := _bearer c |}.

Definition set_mic_track (m : option Capture.MicTrack)
    (c : AzureRealtimeClient) : AzureRealtimeClient :=
  {| pc := pc c; _transcripts := _transcripts c;
     _mic_track := m; _speaker_stream := _speaker_stream c;
     session_id := session_id c; _bearer := _bearer c |}.

Definition set_speaker_stream (sp : option Playback.OutputStream)
    (c : AzureRealtimeClient) : AzureRealtimeClient :=
  {| pc := pc c; _transcripts := _transcripts c;
     _mic_track := _mic_track c; _speaker_stream := sp;
     session_id := session_id c; _bearer := _bearer c |}.

Definition set_session_id (v : json)
    (c : AzureRealtimeClient) : AzureRealtimeClient :=
  {| pc := pc c; _transcripts := _transcripts c;
     _mic_track := _mic_track c; _speaker_stream := _speaker_stream c;
     session_id := Some v; _bearer := _bearer c |}.

Definition set_bearer (v : json)
    (c : AzureRealtimeClient) : AzureRealtimeClient :=
  {| pc := pc c; _transcripts := _transcripts c;
     _mic_track := _mic_track c; _speaker_stream := _speaker_stream c;
     session_id := session_id c; _bearer := Some v |}.

(** Updates of the peer connection. *)
Definition pc_add_track (c : PeerConnection) : PeerConnection :=
  {| closed := closed c; senders := S (senders c);
     track_handler := track_handler c;
     datachannel_handler := datachannel_handler c;
     localDescription := localDescription c;
     remoteDescription := remoteDescription c |}.

Definition pc_on_track (c : PeerConnection) : PeerConnection :=
  {| closed := closed c; senders := senders c; track_handler := true;
     datachannel_handler := datachannel_handler c;
     localDescription := localDescription c;
     remoteDescription := remoteDescription c |}.

Definition pc_on_datachannel (c : PeerConnection) : PeerConnection :=
  {| closed := closed c; senders := senders c;
     track_handler := track_handler c; datachannel_handler := true;
     localDescription := localDescription c;
     remoteDescription := remoteDescription c |}.

Definition pc_set_local (sdp : string) (c : PeerConnection) : PeerConnection :=
  {| closed := closed c; senders := senders c;
     track_handler := track_handler c;
     datachannel_handler := datachannel_handler c;
     localDescription := Some sdp;
     remoteDescription := remoteDescription c |}.

Definition pc_set_remote (sdp : string) (c : PeerConnection) : PeerConnection :=
  {| closed := closed c; senders := senders c;
     track_handler := track_handler c;
     datachannel_handler := datachannel_handler c;
     localDescription := localDescription c;
     remoteDescription := Some sdp |}.

Definition pc_close (c : PeerConnection) : PeerConnection :=
  {| closed := true; senders := senders c;
     track_handler := track_handler c;
     datachannel_handler := datachannel_handler c;
     localDescription := localDescription c;
     remoteDescription := remoteDescription c |}.

(** Updates of the capture track made by [MicTrack.stop]. *)
Definition mic_set_ended (m : Capture.MicTrack) : Capture.MicTrack :=
  {| Capture.rate := Capture.rate m; Capture.channels := Capture.channels m;
     Capture._queue := Capture._queue m; Capture._pts := Capture._pts m;
     Capture._stream := Capture._stream m; Capture.ended := true |}.

Definition mic_set_stream (st : Device.status) (m : Capture.MicTrack)
  : Capture.MicTrack :=
  {| Capture.rate := Capture.rate m; Capture.channels := Capture.channels m;
     Capture._queue := Capture._queue m; Capture._pts := Capture._pts m;
     Capture._stream := st; Capture.ended := Capture.ended m |}.

Definition on_mic (f : Capture.MicTrack -> Capture.MicTrack) (w : world) : world :=
  on_self (fun c => set_mic_track (option_map f (_mic_track c)) c) w.

Definition on_speaker (f : Playback.OutputStream -> Playback.OutputStream)
    (w : world) : world :=
  on_self (fun c => set_speaker_stream (option_map f (_speaker_stream c)) c) w.

(** An HTTP response. *)
Record Response : Type := mkResponse {
  status_code : Z;
  body : option json;          (* [None]: the body is not JSON *)
  text : string
}.

(** [httpx.Response.is_success] *)
Definition is_success (r : Response) : bool :=
  (200 <=? status_code r) && (status_code r <=? 299).

(** [httpx.Response.raise_for_status] *)
Definition raise_for_status (r : Response) : result unit :=
  if is_success r then Ok tt else Raise (HTTPStatusError (status_code r)).

(** [httpx.Response.json] *)
Definition response_json (r : Response) : result json :=
  match body r with
  | Some js => Ok js
  | None => Raise JSONDecodeError
  end.

(** What the outside answers during one run of the client. *)
Record env : Type := mkEnv {
  fault : Ext.faults;
  session_response : Response;
  handshake_response : Response;
  offer_sdp : string
}.

Section Methods.

Variable e : env.

Local Open Scope eff_scope.

(** [_create_session] *)
Definition _create_session : Eff.M world unit :=
  Ext.call (fault e) Ext.SessionPost (fun w => w) ;;
  let res := session_response e in
  Eff.lift (raise_for_status res) ;;
  js <- Eff.lift (response_json res) ;;
  id <- Eff.lift (getitem js "id") ;;
  Eff.modify (on_self (set_session_id id)) ;;
  secret <- Eff.lift (getitem js "client_secret") ;;
  value <- Eff.lift (getitem secret "value") ;;
  Eff.modify (on_self (set_bearer value)).

(** [connect] *)
Definition connect : Eff.M world unit :=
  _create_session ;;
  Ext.call (fault e) Ext.MicTrackInit
    (on_self (set_mic_track (Some (Capture.init Capture.default_rate)))) ;;
  Ext.call (fault e) Ext.AddTrack (on_self (set_pc pc_add_track)) ;;
  Eff.modify (on_self (set_pc pc_on_track)) ;;
  Eff.modify (on_self (set_pc pc_on_datachannel)) ;;
  Ext.call (fault e) Ext.CreateOffer (fun w => w) ;;
  Ext.call (fault e) Ext.SetLocalDescription
    (on_self (set_pc (pc_set_local (offer_sdp e)))) ;;
  local <- Eff.gets (fun w => localDescription (pc (self w))) ;;
  match local with
   | Some _ => Eff.ret tt
   | None => Eff.raise AttributeError
   end ;;
  Ext.call (fault e) Ext.HandshakePost (fun w => w) ;;
  let ans := handshake_response e in
  Eff.lift (raise_for_status ans) ;;
  Ext.call (fault e) Ext.SetRemoteDescription
    (on_self (set_pc (pc_set_remote (text ans)))).

(** [MicTrack.stop] *)
Definition mic_stop : Eff.M world unit :=
  Ext.call (fault e) Ext.TrackStop (on_mic mic_set_ended) ;;
  Ext.call (fault e) Ext.MicStreamStop (on_mic (mic_set_stream Device.Stopped)) ;;
  Ext.call (fault e) Ext.MicStreamClose (on_mic (mic_set_stream Device.Closed)).

(** [close] *)
Definition close : Eff.M world unit :=
  sp <- Eff.gets (fun w => _speaker_stream (self w)) ;;
  match sp with
   | Some _ =>
       Ext.call (fault e) Ext.SpeakerStop
         (on_speaker (Playback.with_status Device.Stopped)) ;;
       Ext.call (fault e) Ext.SpeakerClose
         (on_speaker (Playback.with_status Device.Closed))
   | None => Eff.ret tt
   end ;;
  mic <- Eff.gets (fun w => _mic_track (self w)) ;;
  match mic with
   | Some _ => mic_stop
   | None => Eff.ret tt
   end ;;
  Ext.call (fault e) Ext.PcClose (on_self (set_pc pc_close)).

(** [_on_track]: starts a relay for an audio track; the relay's [speaker]
    starts as [None]. *)
Definition _on_track (kind : string) (w : world) : world :=
  if negb (String.eqb kind "audio") then w
  else {| self := self w; relays := relays w ++ [None] |}.

(** The relay task [i] runs on what its track delivers. *)
Fixpoint resume_relay (i : nat) (inputs : list Playback.received)
    (rs : list Playback.player) : list Playback.player :=
  match rs, i with
  | [], _ => []
  | p :: rest, O => snd (Playback._play (fault e) inputs p) :: rest
  | p :: rest, S j => p :: resume_relay j inputs rest
  end.

Definition relay_runs (i : nat) (inputs : list Playback.received) (w : world)
  : world :=
  {| self := self w; relays := resume_relay i inputs (relays w) |}.

(** The steps [close] takes on [w], in order. *)
Definition teardown_plan (w : world) : list Ext.site :=
  match _speaker_stream (self w) with
   | Some _ => [Ext.SpeakerStop; Ext.SpeakerClose]
   | None => []
   end
  ++ match _mic_track (self w) with
     | Some _ => [Ext.TrackStop; Ext.MicStreamStop; Ext.MicStreamClose]
     | None => []
     end
  ++ [Ext.PcClose].

(** What a teardown step does when it returns. *)
Definition teardown_effect (s : Ext.site) : world -> world :=
  match s with
  | Ext.SpeakerStop => on_speaker (Playback.with_status Device.Stopped)
  | Ext.SpeakerClose => on_speaker (Playback.with_status Device.Closed)
  | Ext.TrackStop => on_mic mic_set_ended
  | Ext.MicStreamStop => on_mic (mic_set_stream Device.Stopped)
  | Ext.MicStreamClose => on_mic (mic_set_stream Device.Closed)
  | Ext.PcClose => on_self (set_pc pc_close)
  | _ => fun w => w
  end.

(** A list of steps run in order: the first one that raises ends the run
    and the steps after it are not taken. *)
Fixpoint run_plan (plan : list Ext.site) (w : world) : result unit * world :=
  match plan with
  | [] => (Ok tt, w)
  | s :: rest =>
      match fault e s with
      | Some x => (Raise x, w)
      | None => run_plan rest (teardown_effect s w)
      end
  end.

End Methods.

(** Device handles and connection still held. *)
Definition capture_open (w : world) : bool :=
  match _mic_track (self w) with
  | Some m => Device.is_open (Capture._stream m)
  | None => false
  end.

Definition playback_open (w : world) : nat :=
  (if Playback.holds_device (_speaker_stream (self w)) then 1 else 0)
  + length (filter Playback.holds_device (relays w)).

Definition connection_open (w : world) : bool := negb (closed (pc (self w))).

(** A session answer [{"id":"sess1","client_secret":{"value":"tok"}}] and an
    SDP answer. *)
Definition session_ok : Response :=
  {| status_code := 200;
     body := Some (JObject [("id", JString "sess1");
                            ("client_secret", JObject [("value", JString "tok")])]);
     text := "" |}.

Definition session_denied : Response :=
  {| status_code := 401; body := None; text := "Unauthorized" |}.

Definition answer_ok : Response :=
  {| status_code := 201; body := None; text := "v=0" |}.

Definition env_ok : env :=
  {| fault := Ext.quiet; session_response := session_ok;
     handshake_response := answer_ok; offer_sdp := "v=0" |}.

Definition env_denied : env :=
  {| fault := Ext.quiet; session_response := session_denied;
     handshake_response := answer_ok; offer_sdp := "v=0" |}.

(** Only the given teardown step fails. *)
Definition env_failing (s : Ext.site) (x : exn) : env :=
  {| fault := Ext.failing s x; session_response := session_ok;
     handshake_response := answer_ok; offer_sdp := "v=0" |}.

(** The client after [connect()] returned. *)
Definition connected : world := snd (connect env_ok start).

(** Then an audio track arrived and its relay played one frame. *)
Definition connected_playing : world :=
  relay_runs env_ok 0 [Playback.Got Playback.s16_frame]
    (_on_track "audio" connected).

End Lifecycle.

(** ** A decoder for a fragment of JSON

    Objects, arrays, strings without escapes, integers and the three
    literals: enough to run the handler on the text of a message.  On this
    fragment it builds the document [json.loads] builds; the statements below
    hold for any decoder. *)

Module JsonText.
Import Py.

Definition dquote : ascii := ascii_of_nat 34.
Definition backslash : ascii := ascii_of_nat 92.

Definition is_ws (c : ascii) : bool :=
  let n := nat_of_ascii c in
  Nat.eqb n 32 || Nat.eqb n 9 || Nat.eqb n 10 || Nat.eqb n 13.

Definition is_digit (c : ascii) : bool :=
  let n := nat_of_ascii c in Nat.leb 48 n && Nat.leb n 57.

Fixpoint skip_ws (s : list ascii) : list ascii :=
  match s with
  | c :: r => if is_ws c then skip_ws r else s
  | [] => []
  end.

Fixpoint digits (acc : Z) (s : list ascii) : Z * list ascii :=
  match s with
  | c :: r =>
      if is_digit c
      then digits (10 * acc + Z.of_nat (nat_of_ascii c - 48)) r
      else (acc, s)
  | [] => (acc, [])
  end.

(** The characters of a string up to its closing quote. *)
Fixpoint chars (s : list ascii) : option (string * list ascii) :=
  match s with
  | [] => None
  | c :: r =>
      if Ascii.eqb c dquote then Some (EmptyString, r)
      else if Ascii.eqb c backslash || Nat.ltb (nat_of_ascii c) 32 then None
      else match chars r with
           | Some (str, r') => Some (String c str, r')
           | None => None
           end
  end.

Definition integer (s : list ascii) : option (json * list ascii) :=
  match s with
  | c :: r =>
      if is_digit c then
        let '(n, r') := digits 0 s in
        match r' with
        | "."%char :: _ | "e"%char :: _ | "E"%char :: _ => None
        | _ => if Ascii.eqb c "0" && negb (n =? 0) then None
               else Some (JInt n, r')
        end
      else None
  | [] => None
  end.

Fixpoint value (fuel : nat) (s : list ascii) {struct fuel}
  : option (json * list ascii) :=
  match fuel with
  | O => None
  | S fuel' =>
      match skip_ws s with
      | "{"%char :: r =>
          match skip_ws r with
          | "}"%char :: r' => Some (JObject [], r')
          | r' => members fuel' [] r'
          end
      | "["%char :: r =>
          match skip_ws r with
          | "]"%char :: r' => Some (JArray [], r')
          | r' => elements fuel' [] r'
          end
      | "t"%char :: "r"%char :: "u"%char :: "e"%char :: r =>
          Some (JBool true, r)
      | "f"%char :: "a"%char :: "l"%char :: "s"%char :: "e"%char :: r =>
          Some (JBool false, r)
      | "n"%char :: "u"%char :: "l"%char :: "l"%char :: r =>
          Some (JNull, r)
      | "-"%char :: r =>
          match integer r with
          | Some (JInt n, r') => Some (JInt (- n), r')
          | _ => None
          end
      | c :: r =>
          if Ascii.eqb c dquote then
            match chars r with
            | Some (str, r') => Some (JString str, r')
            | None => None
            end
          else integer (c :: r)
      | [] => None
      end
  end
with members (fuel : nat) (d : list (string * json)) (s : list ascii)
     {struct fuel} : option (json * list ascii) :=
  match fuel with
  | O => None
  | S fuel' =>
      match skip_ws s with
      | c :: r =>
          if Ascii.eqb c dquote then
            match chars r with
            | Some (key, r1) =>
                match skip_ws r1 with
                | ":"%char :: r2 =>
                    match value fuel' r2 with
                    | Some (v, r3) =>
                        let d' := dict_set d key v in
                        match skip_ws r3 with
                        | ","%char :: r4 => members fuel' d' r4
                        | "}"%char :: r4 => Some (JObject d', r4)
                        | _ => None
                        end
                    | None => None
                    end
                | _ => None
                end
            | None => None
            end
          else None
      | [] => None
      end
  end
with elements (fuel : nat) (acc : list json) (s : list ascii)
     {struct fuel} : option (json * list ascii) :=
  match fuel with
  | O => None
  | S fuel' =>
      match value fuel' s with
      | Some (v, r) =>
          match skip_ws r with
          | ","%char :: r' => elements fuel' (acc ++ [v]) r'
          | "]"%char :: r' => Some (JArray (acc ++ [v]), r')
          | _ => None
          end
      | None => None
      end
  end.

Definition loads (data : string) : option json :=
  let s := list_ascii_of_string data in
  match value (S (length s)) s with
  | Some (v, rest) =>
      match skip_ws rest with
      | [] => Some v
      | _ => None
      end
  | None => None
  end.

(** [q s] is [s] between double quotes. *)
Definition q (s : string) : string :=
  String dquote (String.append s (String dquote EmptyString)).

Definition cat (l : list string) : string := String.concat "" l.

(** [{"type":"text","text":{"value":"<s>"}}] *)
Definition msg_text (s : string) : string :=
  cat ["{"; q "type"; ":"; q "text"; ","; q "text"; ":{"; q "value"; ":";
       q s; "}}"].

Definition msg_hello : string := msg_text "hello".

(** [{"type":"other"}] *)
Definition msg_other : string := cat ["{"; q "type"; ":"; q "other"; "}"].

(** [{"type":"text","text":{"value":42}}] *)
Definition msg_number : string :=
  cat ["{"; q "type"; ":"; q "text"; ","; q "text"; ":{"; q "value";
       ":42}}"].

(** [{"type":"text"] is cut short. *)
Definition msg_truncated : string :=
  cat ["{"; q "type"; ":"; q "text"].

End JsonText.

(** ** Observing a capture track

    The same steps as [Capture.step], with a record of what the callback was
    offered, what it lost and what [recv] handed out. *)

Module CaptureTrace.
Import Py Capture.

Record log : Type := mkLog {
  offered : list block;        (* blocks the callback was called with *)
  lost : list block;           (* those that met a full queue *)
  delivered : list AudioFrame  (* frames returned by [recv] *)
}.

Definition nothing : log := {| offered := []; lost := []; delivered := [] |}.

Definition observe (st : MicTrack * log) (o : op) : MicTrack * log :=
  let '(t, lg) := st in
  match o with
  | Callback b =>
      (step t (Callback b),
       {| offered := offered lg ++ [b];
          lost := lost lg ++ (if dropped_by t b then [b] else []);
          delivered := delivered lg |})
  | Recv =>
      match recv t with
      | Some (f, t') =>
          (t', {| offered := offered lg; lost := lost lg;
                  delivered := delivered lg ++ [f] |})
      | None => (t, lg)
      end
  end.

Definition observed (r : Z) (ops : list op) : MicTrack * log :=
  fold_left observe ops (init r, nothing).

(** [o] is [k] and [l] shuffled together, each keeping its order. *)
Inductive Interleave {A : Type} : list A -> list A -> list A -> Prop :=
| il_nil : Interleave [] [] []
| il_left x k l o : Interleave k l o -> Interleave (x :: k) l (x :: o)
| il_right x k l o : Interleave k l o -> Interleave k (x :: l) (x :: o).

(** Every frame starts where the one before it ended. *)
Fixpoint contiguous (start : Z) (fs : list AudioFrame) : Prop :=
  match fs with
  | [] => True
  | f :: rest =>
      pts f = start /\ contiguous (start + Z.of_nat (samples f)) rest
  end.

Definition total_samples (fs : list AudioFrame) : Z :=
  fold_right (fun f acc => Z.of_nat (samples f) + acc) 0 fs.

Definition byte (b : Z) : Prop := 0 <= b < 256.

(** What every observation keeps. *)
Definition coherent (st : MicTrack * log) : Prop :=
  let '(t, lg) := st in
  Interleave (map plane (delivered lg) ++ map tobytes (AsyncQueue.items (_queue t)))
             (map tobytes (lost lg)) (map tobytes (offered lg))
  /\ contiguous 0 (delivered lg)
  /\ _pts t = total_samples (delivered lg).

(** Two callbacks fill nothing, a read, nine more callbacks, a read. *)
Definition busy_ops : list op :=
  [Callback [10]; Callback [11; 12]; Recv]
  ++ map (fun n => Callback [n]) [0; 1; 2; 3; 4; 5; 6; 7; 8]
  ++ [Recv].

End CaptureTrace.

(** ** What a relay is expected to write *)

Module PlaybackTrace.
Import Py Playback.

(** The arrays [frames] turn into for a stream of [c] channels, or the
    first reshape failure. *)
Fixpoint rendered (c : nat) (frames : list Frame) : result (list ndarray) :=
  match frames with
  | [] => Ok []
  | f :: rest =>
      match reshape (rescale (to_ndarray f)) c with
      | Ok a =>
          match rendered c rest with
          | Ok l => Ok (a :: l)
          | Raise e => Raise e
          end
      | Raise e => Raise e
      end
  end.

(** A stereo float frame of three numbers: not a whole number of rows. *)
Definition odd_stereo_frame : Frame :=
  {| sample_rate := 48000; layout_channels := 2;
     to_ndarray := {| dt := float32; shape := (1, 3)%nat;
                      values := [1 # 2; 1 # 4; 1 # 8]%Q |} |}.

(** The only failing call is the write to the playback stream. *)
Definition write_fails : Ext.faults := Ext.failing Ext.SpeakerWrite PortAudioError.

End PlaybackTrace.

(** ** Inbound tracks *)

Module Inbound.
Import Lifecycle.

(** The peer connection announces tracks of the given kinds, one by one. *)
Definition tracks_arrive (kinds : list string) (w : world) : world :=
  fold_left (fun w kind => _on_track kind w) kinds w.

Definition audio_count (kinds : list string) : nat :=
  length (filter (fun kind => String.eqb kind "audio") kinds).


End Inbound.

(** ** Session answers *)

Module Negotiation.
Import Py Lifecycle.

(** [js["client_secret"]["value"]] *)
Definition bearer_of (js : json) : result json :=
  match getitem js "client_secret" with
  | Ok secret => getitem secret "value"
  | Raise x => Raise x
  end.

(** Every call returns, both answers are 2xx, and the session answer is
    the document [js]. *)
Definition answers (e : env) (js : json) : Prop :=
  (forall s, fault e s = None)
  /\ is_success (session_response e) = true
  /\ is_success (handshake_response e) = true
  /\ body (session_response e) = Some js.


(** The client [connect] builds from a new one when the session is
    granted with [id] and [tok], the capture track is made and the offer is
    set; [answer] is the remote description, if one was set. *)
Definition negotiated (e : env) (id tok : json) (answer : option string)
  : AzureRealtimeClient :=
  {| pc := {| closed := false; senders := 1; track_handler := true;
              datachannel_handler := true;
              localDescription := Some (offer_sdp e);
              remoteDescription := answer |};
     _transcripts := AsyncQueue.create 0;
     _mic_track := Some (Capture.init Capture.default_rate);
     _speaker_stream := None;
     session_id := Some id; _bearer := Some tok |}.


(** A session answer without ["client_secret"]. *)
Definition session_without_secret : Response :=
  {| status_code := 200; body := Some (JObject [("id", JString "sess1")]);
     text := "" |}.

Definition env_without_secret : env :=
  {| fault := Ext.quiet; session_response := session_without_secret;
     handshake_response := answer_ok; offer_sdp := "v=0" |}.

Definition answer_refused : Response :=
  {| status_code := 403; body := None; text := "Forbidden" |}.

(** The session is granted and the SDP offer is refused. *)
Definition env_refused : env :=
  {| fault := Ext.quiet; session_response := session_ok;
     handshake_response := answer_refused; offer_sdp := "v=0" |}.

(** The session is granted and there is no microphone. *)
Definition env_no_microphone : env :=
  {| fault := Ext.failing Ext.MicTrackInit PortAudioError;
     session_response := session_ok;
     handshake_response := answer_ok; offer_sdp := "v=0" |}.

End Negotiation.

(** ** Required settings (module level of [realtime_client.py]) *)

Module Config.
Import Py.

Record settings : Type := mkSettings {
  AZ_ENDPOINT : string;
  AZ_DEPLOY : string;
  AZ_KEY : string;
  REGION : string
}.

(** [not v] for what [os.getenv] returned. *)
Definition falsy (v : option string) : bool :=
  match v with
  | None => true
  | Some s => String.eqb s ""
  end.

(** The four [os.getenv] reads and the check after them. *)
Definition load (getenv : string -> option string) : result settings :=
  let endpoint := getenv "AZURE_OPENAI_ENDPOINT" in
  let deploy := getenv "AZURE_OPENAI_DEPLOYMENT" in
  let key := match getenv "AZURE_OPENAI_API_KEY" with
             | Some k => k
             | None => ""
             end in
  let region := getenv "AZURE_OPENAI_REGION" in
  if falsy endpoint || falsy deploy || falsy region then Raise RuntimeError
  else
    match endpoint, deploy, region with
    | Some a, Some d, Some r =>
        Ok {| AZ_ENDPOINT := a; AZ_DEPLOY := d; AZ_KEY := key; REGION := r |}
    | _, _, _ => Raise RuntimeError
    end.

(** [headers={"api-key": AZ_KEY} if AZ_KEY else None] *)
Definition session_headers (c : settings) : option (list (string * string)) :=
  if String.eqb (AZ_KEY c) "" then None else Some [("api-key", AZ_KEY c)].

(** An environment with everything but the key. *)
Definition keyless (name : string) : option string :=
  if String.eqb name "AZURE_OPENAI_ENDPOINT" then Some "https://r.openai.azure.com"
  else if String.eqb name "AZURE_OPENAI_DEPLOYMENT" then Some "gpt-4o-mini-realtime-preview"
  else if String.eqb name "AZURE_OPENAI_REGION" then Some "swedencentral"
  else None.

End Config.

(** ** The chat front end [main.py] *)

Module App.
Import Py.

(** The buttons a message can carry. *)
Inductive action : Type := start_talking | stop_talking.

(** The messages [main.py] sends. *)
Inductive message : Type :=
| Welcome          (* the greeting of [chat_start] *)
| AlreadyLive      (* "The microphone is already live." *)
| MicLive          (* "Microphone is live. ..." *)
| MicClosed.       (* "Microphone closed." *)

Definition offers (m : message) : option action :=
  match m with
  | Welcome => Some start_talking
  | AlreadyLive => None
  | MicLive => Some stop_talking
  | MicClosed => Some start_talking
  end.

(** One chat session: the client under ["rtc"] in [cl.user_session], what
    was sent, how many relay tasks were started, and the clients no longer
    referenced. *)
Record session : Type := mkSession {
  rtc : option Lifecycle.world;
  sent : list message;
  relay_tasks : nat;
  discarded : list Lifecycle.world
}.

Definition empty : session :=
  {| rtc := None; sent := []; relay_tasks := 0; discarded := [] |}.

Definition send (m : message) : Eff.M session unit :=
  Eff.modify (fun s => {| rtc := rtc s; sent := sent s ++ [m];
                          relay_tasks := relay_tasks s;
                          discarded := discarded s |}).

Definition set_rtc (r : option Lifecycle.world) (s : session) : session :=
  {| rtc := r; sent := sent s; relay_tasks := relay_tasks s;
     discarded := discarded s |}.

Definition discard (w : Lifecycle.world) (s : session) : session :=
  {| rtc := rtc s; sent := sent s; relay_tasks := relay_tasks s;
     discarded := discarded s ++ [w] |}.

(** [asyncio.create_task(_relay_transcripts(client))] *)
Definition spawn_relay (s : session) : session :=
  {| rtc := rtc s; sent := sent s; relay_tasks := S (relay_tasks s);
     discarded := discarded s |}.

Section Callbacks.

Variable e : Lifecycle.env.

Local Open Scope eff_scope.

(** [client = AzureRealtimeClient(); await client.connect()], then the
    client is stored; a client whose connect() raised is dropped. *)
Definition connect_new : Eff.M session unit :=
  fun s =>
    match Lifecycle.connect e Lifecycle.start with
    | (Ok _, w) => (Ok tt, set_rtc (Some w) s)
    | (Raise x, w) => (Raise x, discard w s)
    end.

(** [await client.close(); cl.user_session.set("rtc", None)] *)
Definition close_stored (w : Lifecycle.world) : Eff.M session unit :=
  fun s =>
    match Lifecycle.close e w with
    | (Ok _, w') => (Ok tt, discard w' (set_rtc None s))
    | (Raise x, w') => (Raise x, set_rtc (Some w') s)
    end.

(** [_toggle_session] *)
Definition _toggle_session (cmd : string) : Eff.M session unit :=
  if String.eqb cmd "start" then
    client <- Eff.gets rtc ;;
    match client with
    | Some _ => send AlreadyLive
    | None =>
        connect_new ;;
        Eff.modify spawn_relay ;;
        send MicLive
    end
  else
    client <- Eff.gets rtc ;;
    match client with
     | Some w => close_stored w
     | None => Eff.ret tt
     end ;;
    send MicClosed.

(** [cb_start] and [cb_stop] *)
Definition cb_start : Eff.M session unit := _toggle_session "start".

Definition cb_stop : Eff.M session unit := _toggle_session "stop".

End Callbacks.

(** [chat_start] *)
Definition chat_start : Eff.M session unit := send Welcome.

(** A click on a button, with what the outside answers while its callback
    runs. *)
Definition click : Type := (Lifecycle.env * action)%type.

Definition on_click (s : session) (c : click) : result unit * session :=
  match snd c with
  | start_talking => cb_start (fst c) s
  | stop_talking => cb_stop (fst c) s
  end.

(** The session after the greeting and the clicks; an exception of a
    callback ends that callback only. *)
Definition after (clicks : list click) : session :=
  fold_left (fun s c => snd (on_click s c)) clicks (snd (chat_start empty)).

Definition live_messages (s : session) : nat :=
  length (filter (fun m => match m with MicLive => true | _ => false end)
                 (sent s)).



End App.

(** ** Traces without a consumer *)

Module ControlTrace.
Import Control.

(** The consumer never advances during [evs]. *)
Definition no_next (evs : list event) : Prop :=
  Forall (fun e => e <> Next) evs.

End ControlTrace.

(** ** Message texts used to run the handler *)

Module Samples.
Import JsonText.

(** [{"type":"text"}] *)
Definition msg_no_text : string := cat ["{"; q "type"; ":"; q "text"; "}"].

(** [{"type":"text","text":"hi"}] *)
Definition msg_text_is_string : string :=
  cat ["{"; q "type"; ":"; q "text"; ","; q "text"; ":"; q "hi"; "}"].

(** [{"type":"text","text":{"delta":"hi"}}] *)
Definition msg_no_value : string :=
  cat ["{"; q "type"; ":"; q "text"; ","; q "text"; ":{"; q "delta"; ":";
       q "hi"; "}}"].

End Samples.

(** * Properties *)

(** ** Capture adapter *)

Section CaptureFacts.
Import Py Capture.

Lemma full_iff_eight (t : MicTrack) :
  bounded t ->
  AsyncQueue.full (_queue t) = (AsyncQueue.qsize (_queue t) =? 8).
Proof.
  intros [Hm Hl]. unfold AsyncQueue.full, AsyncQueue.qsize. rewrite Hm. simpl.
  destruct (Z.leb_spec 8 (Z.of_nat (length (AsyncQueue.items (_queue t)))));
    symmetry; [apply Z.eqb_eq | apply Z.eqb_neq]; lia.
Qed.

Lemma callback_total (t : MicTrack) (b : block) :
  _callback t b =
  Ok (if AsyncQueue.full (_queue t) then t
      else with_queue t (AsyncQueue.mk (AsyncQueue.items (_queue t) ++ [b])
                                       (AsyncQueue.maxsize (_queue t)))).
Proof.
  unfold _callback, AsyncQueue.put_nowait.
  destruct (AsyncQueue.full (_queue t)); reflexivity.
Qed.

Lemma bounded_init (r : Z) : bounded (init r).
Proof. split; simpl; [reflexivity | lia]. Qed.

Lemma bounded_step (t : MicTrack) (o : op) : bounded t -> bounded (step t o).
Proof.
  intros Hb. pose proof (full_iff_eight t Hb) as Hf. destruct Hb as [Hm Hl].
  destruct o as [b|]; simpl.
  - rewrite callback_total.
    destruct (AsyncQueue.full (_queue t)) eqn:E; [split; assumption|].
    symmetry in Hf. apply Z.eqb_neq in Hf. unfold AsyncQueue.qsize in Hf.
    split; simpl; [assumption|]. rewrite length_app. simpl. lia.
  - unfold recv, AsyncQueue.get_nowait.
    destruct (AsyncQueue.items (_queue t)) as [|x rest] eqn:E.
    + split; [assumption | rewrite E; simpl; lia].
    + split; simpl; [assumption | simpl in Hl; lia].
Qed.

Lemma bounded_run (ops : list op) (t : MicTrack) : bounded t -> bounded (run t ops).
Proof.
  revert t. induction ops as [|o ops IH]; intros t Hb; simpl; [assumption|].
  apply IH, bounded_step, Hb.
Qed.

Lemma callbacks_spec (bs : list block) (t : MicTrack) :
  bounded t ->
  let n := (8 - length (AsyncQueue.items (_queue t)))%nat in
  AsyncQueue.items (_queue (fst (callbacks t bs)))
    = AsyncQueue.items (_queue t) ++ firstn n bs
  /\ snd (callbacks t bs) = skipn n bs
  /\ _pts (fst (callbacks t bs)) = _pts t
  /\ rate (fst (callbacks t bs)) = rate t.
Proof.
  revert t. induction bs as [|b bs IH]; intros t Hb n.
  - simpl. rewrite firstn_nil, skipn_nil, app_nil_r. auto.
  - pose proof (full_iff_eight t Hb) as Hf.
    pose proof (bounded_step t (Callback b) Hb) as Hb'.
    specialize (IH _ Hb'). cbv zeta in IH.
    cbn [callbacks].
    destruct (callbacks (step t (Callback b)) bs) as [t2 dr] eqn:E.
    cbn [fst snd] in *. unfold dropped_by, AsyncQueue.put_nowait.
    revert IH. cbn [step]. rewrite callback_total.
    destruct Hb as [Hm Hl]. unfold AsyncQueue.qsize in Hf.
    destruct (AsyncQueue.full (_queue t)) eqn:F; intros (I1 & I2 & I3 & I4).
    + symmetry in Hf. apply Z.eqb_eq in Hf.
      assert (n = 0%nat) as -> by (unfold n; lia).
      replace (8 - length (AsyncQueue.items (_queue t)))%nat with 0%nat in * by lia.
      simpl in *. rewrite I1, I2. auto.
    + symmetry in Hf. apply Z.eqb_neq in Hf.
      assert (exists m, n = S m /\
                (8 - length (AsyncQueue.items (_queue t) ++ [b]))%nat = m)
        as (m & -> & Hm').
      { exists (Nat.pred n). rewrite length_app. cbn [length]. unfold n.
        split; lia. }
      cbn [with_queue _queue AsyncQueue.items _pts rate] in I1, I2, I3, I4.
      rewrite Hm' in I1, I2.
      cbn [firstn skipn]. rewrite I1, I2, <- app_assoc. auto.
Qed.

Lemma sample_roundtrip (s : Z) :
  int16 s -> frombytes (sample_bytes s) = [s].
Proof.
  unfold int16, sample_bytes, frombytes, sample_of_bytes. intros H.
  cbv zeta.
  assert (s mod 65536 mod 256 + 256 * (s mod 65536 / 256) = s mod 65536) as ->.
  { pose proof (Z.div_mod (s mod 65536) 256). lia. }
  f_equal.
  destruct (Z.ltb_spec (s mod 65536) 32768) as [L|L].
  - destruct (Z_lt_le_dec s 0) as [N|N].
    + assert (s mod 65536 = s + 65536).
      { symmetry. apply Z.mod_unique with (q := -1); lia. }
      lia.
    + apply Z.mod_small. lia.
  - destruct (Z_lt_le_dec s 0) as [N|N].
    + assert (s mod 65536 = s + 65536).
      { symmetry. apply Z.mod_unique with (q := -1); lia. }
      lia.
    + rewrite Z.mod_small in L by lia. lia.
Qed.

Lemma frombytes_tobytes (b : block) :
  Forall int16 b -> frombytes (tobytes b) = b.
Proof.
  induction 1 as [|s b Hs _ IH]; [reflexivity|].
  pose proof (sample_roundtrip s Hs) as R.
  cbn [tobytes]. unfold sample_bytes in *. cbv zeta in *.
  cbn [app frombytes] in *. rewrite IH. congruence.
Qed.

Lemma recvs_spec (bs : list block) (t : MicTrack) :
  AsyncQueue.items (_queue t) = bs ->
  let fs := fst (recvs (length bs) t) in
  map plane fs = map tobytes bs
  /\ map samples fs = map (@length Z) bs
  /\ Forall (fun f => sample_rate f = rate t
                     /\ format f = "s16" /\ layout f = "mono") fs
  /\ map pts fs = pts_from (_pts t) bs
  /\ AsyncQueue.items (_queue (snd (recvs (length bs) t))) = [].
Proof.
  revert t. induction bs as [|b bs IH]; intros t Hq.
  - simpl. auto.
  - cbn [length recvs]. unfold recv, AsyncQueue.get_nowait. rewrite Hq.
    match goal with |- context [recvs _ ?t'] => specialize (IH t' eq_refl) end.
    cbv zeta in IH. cbn [rate _pts _queue AsyncQueue.items] in IH.
    match goal with |- context [recvs ?n ?t'] =>
      destruct (recvs n t') as [fs t2] eqn:E end.
    cbn [fst snd] in *. destruct IH as (I1 & I2 & I3 & I4 & I5).
    cbn [map pts_from plane samples pts]. rewrite I1, I2, I4.
    repeat split; auto.
Qed.

Lemma pts_from_sorted (bs : list block) (p : Z) :
  Forall (fun b => b <> []) bs -> Sorted Z.lt (pts_from p bs).
Proof.
  intros H. revert p. induction H as [|b bs Hb _ IH]; intros p; simpl.
  - constructor.
  - constructor; [apply IH|].
    destruct bs as [|b' bs']; simpl; constructor.
    destruct b; [congruence | simpl length; lia].
Qed.

(** C1: from construction on, whatever callbacks and reads happen, the
    hand-off queue never holds more than 8 blocks; the capture callback
    always returns without an error; on a full queue (8 blocks) it returns
    the track unchanged, so the incoming block is the one that is lost, and
    otherwise it appends the block at the back. *)
Theorem capture_queue_never_exceeds_capacity
    (r : Z) (ops : list op) (indata : block) :
  let t := run (init r) ops in
  AsyncQueue.qsize (_queue t) <= 8
  /\ AsyncQueue.full (_queue t) = (AsyncQueue.qsize (_queue t) =? 8)
  /\ _callback t indata =
       Ok (if AsyncQueue.full (_queue t) then t
           else with_queue t
                  (AsyncQueue.mk (AsyncQueue.items (_queue t) ++ [indata]) 8)).
Proof.
  intros t. pose proof (bounded_run ops _ (bounded_init r)) as Hb.
  fold t in Hb. split; [|split].
  - destruct Hb as [_ Hl]. unfold AsyncQueue.qsize. lia.
  - apply full_iff_eight, Hb.
  - rewrite callback_total. destruct Hb as [-> _]. reflexivity.
Qed.

(** C2: after N blocks have been enqueued on a new track (N within the
    capacity, each block a non-empty int16 array), N calls of recv() give N
    frames that carry those blocks in enqueue order, each with the track's
    sample rate, with timestamps that start at 0, grow by the sample count of
    the block just returned and are strictly increasing. *)
Theorem recv_returns_blocks_in_enqueue_order (r : Z) (bs : list block) :
  (length bs <= 8)%nat ->
  Forall (Forall int16) bs ->
  Forall (fun b => b <> []) bs ->
  let t := fst (callbacks (init r) bs) in
  let fs := fst (recvs (length bs) t) in
  length fs = length bs
  /\ map (fun f => frombytes (plane f)) fs = bs
  /\ map samples fs = map (@length Z) bs
  /\ Forall (fun f => sample_rate f = r) fs
  /\ map pts fs = pts_from 0 bs
  /\ Sorted Z.lt (map pts fs).
Proof.
  intros Hlen H16 Hne t fs.
  destruct (callbacks_spec bs (init r) (bounded_init r)) as (C1 & _ & C3 & C4).
  cbn [init _queue AsyncQueue.create AsyncQueue.items length Nat.sub app
       _pts rate] in C1, C3, C4.
  rewrite firstn_all2 in C1 by lia.
  destruct (recvs_spec bs t C1) as (R1 & R2 & R3 & R4 & _).
  fold fs in R1, R2, R3, R4. unfold t in R4 at 1. rewrite C3 in R4.
  assert (length fs = length bs) as L.
  { rewrite <- (length_map plane fs), R1, length_map. reflexivity. }
  repeat split; auto.
  - rewrite <- (map_map plane frombytes), R1, map_map.
    clear - H16. induction H16 as [|b bs Hb _ IH]; simpl; [reflexivity|].
    rewrite frombytes_tobytes, IH by assumption. reflexivity.
  - eapply Forall_impl; [|exact R3]. intros f (Hr & _). unfold t in Hr.
    rewrite Hr, C4. reflexivity.
  - rewrite R4. apply pts_from_sorted, Hne.
Qed.

Lemma recv_returns_blocks_in_enqueue_order_witness :
  map pts (fst (recvs 2 (fst (callbacks (init 24000) two_blocks)))) = [0; 3].
Proof.
  assert (length two_blocks <= 8)%nat as H1 by (simpl; lia).
  assert (Forall (Forall int16) two_blocks) as H2.
  { unfold two_blocks, int16. repeat constructor; lia. }
  assert (Forall (fun b : block => b <> []) two_blocks) as H3.
  { unfold two_blocks. repeat constructor; discriminate. }
  exact (proj1 (proj2 (proj2 (proj2 (proj2
           (recv_returns_blocks_in_enqueue_order 24000 two_blocks H1 H2 H3)))))).
Defined.

(** C8, as the code has it: when more than 8 callbacks run on a new track
    with no read in between, the first 8 blocks stay queued in arrival
    order and the blocks that arrived after them, the newest ones, are the
    ones dropped: N - 8 of them; the queue holds exactly 8 blocks at the
    end and never more than 8 on the way. *)
Theorem callbacks_beyond_capacity_drop_newest (r : Z) (bs : list block) :
  (8 < length bs)%nat ->
  let t := fst (callbacks (init r) bs) in
  let dropped := snd (callbacks (init r) bs) in
  AsyncQueue.items (_queue t) = firstn 8 bs
  /\ dropped = skipn 8 bs
  /\ AsyncQueue.qsize (_queue t) = 8
  /\ length dropped = (length bs - 8)%nat
  /\ forall k : nat,
       AsyncQueue.qsize (_queue (fst (callbacks (init r) (firstn k bs)))) <= 8.
Proof.
  intros Hlen t dropped.
  destruct (callbacks_spec bs (init r) (bounded_init r)) as (C1 & C2 & _).
  cbn [init _queue AsyncQueue.create AsyncQueue.items length Nat.sub app]
    in C1, C2.
  fold t in C1. fold dropped in C2.
  repeat split; auto.
  - unfold AsyncQueue.qsize. rewrite C1, length_firstn. lia.
  - rewrite C2, length_skipn. reflexivity.
  - intros k.
    destruct (callbacks_spec (firstn k bs) (init r) (bounded_init r))
      as (K1 & _).
    cbn [init _queue AsyncQueue.create AsyncQueue.items length Nat.sub app]
      in K1.
    unfold AsyncQueue.qsize. rewrite K1, length_firstn. lia.
Qed.

Lemma callbacks_beyond_capacity_drop_newest_witness :
  AsyncQueue.items (_queue (fst (callbacks (init 24000) nine_blocks)))
    = [[0]; [1]; [2]; [3]; [4]; [5]; [6]; [7]]
  /\ snd (callbacks (init 24000) nine_blocks) = [[8]].
Proof.
  assert (8 < length nine_blocks)%nat as H by (simpl; lia).
  pose proof (callbacks_beyond_capacity_drop_newest 24000 nine_blocks H)
    as (W1 & W2 & _).
  split; [exact W1 | exact W2].
Defined.

(** C8 as worded fails: after nine callbacks the block dropped is the
    ninth, not the oldest one, which is still at the head of the queue. *)
Lemma callbacks_do_not_drop_oldest :
  snd (callbacks (init 24000) nine_blocks) = [[8]]
  /\ snd (callbacks (init 24000) nine_blocks) <> oldest_excess nine_blocks
  /\ hd [] (AsyncQueue.items (_queue (fst (callbacks (init 24000) nine_blocks))))
     = [0].
Proof.
  repeat split; try reflexivity.
  vm_compute. discriminate.
Qed.

End CaptureFacts.

(** ** Control channel *)

Section ControlFacts.
Import Py Control.

Variable json_loads : string -> option json.

(** The handler in closed form: it never raises, and it schedules one put
    exactly for the documents of the recognised shape. *)
Lemma on_message_spec (data : string) (l : loop) :
  _on_message json_loads data l =
  (Ok tt,
   match json_loads data with
   | Some msg =>
       match shape_value msg with
       | Some v => with_ready l (ready l ++ [PutTranscript v])
       | None => l
       end
   | None => l
   end).
Proof.
  unfold _on_message, Eff.try_except, Eff.bind, Eff.lift, loads.
  destruct (json_loads data) as [msg|]; [|reflexivity].
  destruct msg as [| | | | |a|d]; try reflexivity.
  cbn [get shape_value]. unfold Eff.when.
  destruct (eq_str (dict_get d "type") "text"); [|reflexivity].
  cbn [getitem].
  destruct (dict_get d "text") as [txt|]; [|reflexivity].
  destruct txt as [| | | | |a|t]; try reflexivity.
  cbn [getitem]. destruct (dict_get t "value"); reflexivity.
Qed.

Lemma shape_value_type (msg : json) (v : json) :
  shape_value msg = Some v -> type_is_text msg = true.
Proof.
  destruct msg; try discriminate. simpl.
  destruct (eq_str (dict_get d "type") "text"); [reflexivity | discriminate].
Qed.

Lemma resumes_app (r1 r2 : list task) :
  resumes (r1 ++ r2) = (resumes r1 + resumes r2)%nat.
Proof.
  induction r1 as [|[v|] r1 IH]; simpl; [reflexivity | exact IH | now rewrite IH].
Qed.

Lemma pending_app (r1 r2 : list task) :
  pending (r1 ++ r2) = pending r1 ++ pending r2.
Proof.
  induction r1 as [|[v|] r1 IH]; simpl; [reflexivity | now rewrite IH | exact IH].
Qed.

Lemma wf_listening : wf listening.
Proof. split; simpl; auto. Qed.

Lemma put_nowait_unbounded (q : AsyncQueue.t json) (v : json) :
  AsyncQueue.maxsize q = 0 ->
  AsyncQueue.put_nowait q v = Ok (AsyncQueue.mk (AsyncQueue.items q ++ [v]) 0).
Proof.
  intros H. unfold AsyncQueue.put_nowait, AsyncQueue.full. rewrite H. reflexivity.
Qed.

Lemma wf_message (data : string) (l : loop) :
  wf l -> wf (snd (_on_message json_loads data l)).
Proof.
  intros [H1 H2 H3]. rewrite on_message_spec. cbn [snd].
  destruct (json_loads data) as [msg|]; [|split; assumption].
  destruct (shape_value msg) as [v|]; [|split; assumption].
  split; cbn [with_ready _transcripts putters listener ready]; auto.
  rewrite resumes_app. simpl. rewrite Nat.add_0_r. exact H3.
Qed.

Lemma wf_advance (l : loop) :
  AsyncQueue.maxsize (_transcripts l) = 0 ->
  putters l = [] ->
  resumes (ready l) = 0%nat -> wf (advance l).
Proof.
  intros H1 H2 Hr. unfold advance, AsyncQueue.get_nowait.
  destruct (AsyncQueue.items (_transcripts l)) as [|x rest] eqn:E.
  - split; simpl; auto.
  - split; simpl; auto; rewrite H2; [reflexivity|].
    simpl. rewrite app_nil_r. exact Hr.
Qed.

Lemma wf_tick (l : loop) : wf l -> wf (tick l).
Proof.
  intros W. pose proof W as [H1 H2 H3]. unfold tick.
  destruct (ready l) as [|[v|] rest] eqn:R; [exact W | |].
  - cbn [run_task]. unfold put.
    cbn [with_ready _transcripts listener ready putters yielded].
    rewrite put_nowait_unbounded by exact H1.
    destruct (listener l); split; simpl in *; auto.
    + split; [|rewrite resumes_app; simpl; lia].
      destruct (AsyncQueue.items (_transcripts l)); discriminate.
    + split; [|tauto].
      destruct (AsyncQueue.items (_transcripts l)); discriminate.
  - cbn [run_task]. simpl in H3.
    destruct (listener l) eqn:L.
    + discriminate H3.
    + destruct H3 as [_ H3]. discriminate H3.
    + destruct H3 as [Hne Hr].
      apply wf_advance; cbn [with_ready _transcripts ready putters]; auto.
Qed.

Lemma wf_next (l : loop) : wf l -> wf (next l).
Proof.
  intros W. unfold next. destruct (listener l) eqn:L; try exact W.
  destruct W as [H1 H2 H3]. rewrite L in H3. apply wf_advance; assumption.
Qed.

Lemma wf_event (l : loop) (e : event) : wf l -> wf (on_event json_loads l e).
Proof.
  destruct e; simpl; [apply wf_message | apply wf_tick | apply wf_next].
Qed.

Lemma wf_run (evs : list event) (l : loop) : wf l -> wf (run json_loads l evs).
Proof.
  revert l. induction evs as [|e evs IH]; intros l W; simpl; [exact W|].
  apply IH, wf_event, W.
Qed.

Lemma accepted_advance (l : loop) :
  putters l = [] -> accepted (advance l) = accepted l.
Proof.
  intros H2. unfold advance, AsyncQueue.get_nowait, accepted.
  destruct (AsyncQueue.items (_transcripts l)) as [|x rest] eqn:E; simpl.
  - rewrite E. reflexivity.
  - rewrite H2. simpl. rewrite app_nil_r, <- app_assoc. reflexivity.
Qed.

Lemma received_app (e1 e2 : list event) :
  received json_loads (e1 ++ e2) = received json_loads e1 ++ received json_loads e2.
Proof.
  induction e1 as [|e e1 IH]; simpl; [reflexivity|].
  destruct e; try exact IH.
  destruct (json_loads data) as [msg|]; [|exact IH].
  destruct (shape_value msg); [simpl; now rewrite IH | exact IH].
Qed.

Lemma accepted_event (l : loop) (e : event) :
  wf l ->
  accepted (on_event json_loads l e) = accepted l ++ received json_loads [e].
Proof.
  intros [H1 H2 H3]. destruct e as [data| |]; cbn [on_event received].
  - rewrite on_message_spec. cbn [snd].
    destruct (json_loads data) as [msg|]; [|now rewrite app_nil_r].
    destruct (shape_value msg) as [v|]; [|now rewrite app_nil_r].
    unfold accepted. cbn [with_ready yielded _transcripts putters ready].
    rewrite pending_app. simpl. now rewrite <- !app_assoc.
  - rewrite app_nil_r. unfold tick.
    destruct (ready l) as [|[v|] rest] eqn:R; [reflexivity| |].
    + cbn [run_task]. unfold put.
      cbn [with_ready _transcripts listener ready putters yielded].
      rewrite put_nowait_unbounded by exact H1.
      unfold accepted. rewrite R, H2.
      destruct (listener l); simpl; rewrite <- ?app_assoc; simpl;
        rewrite ?pending_app; simpl; rewrite ?app_nil_r; reflexivity.
    + cbn [run_task]. rewrite accepted_advance by exact H2.
      unfold accepted. rewrite R. reflexivity.
  - rewrite app_nil_r. unfold next.
    destruct (listener l); try reflexivity. apply accepted_advance, H2.
Qed.

Lemma run_app (l : loop) (e1 e2 : list event) :
  run json_loads l (e1 ++ e2) = run json_loads (run json_loads l e1) e2.
Proof. apply fold_left_app. Qed.

Lemma accepted_run (evs : list event) (l : loop) :
  wf l ->
  accepted (run json_loads l evs) = accepted l ++ received json_loads evs.
Proof.
  revert l. induction evs as [|e evs IH]; intros l W.
  - simpl. now rewrite app_nil_r.
  - change (e :: evs) with ([e] ++ evs) at 2. rewrite received_app.
    cbn [run fold_left]. fold (run json_loads (on_event json_loads l e) evs).
    rewrite IH by (apply wf_event, W).
    rewrite accepted_event by exact W. now rewrite app_assoc.
Qed.

Lemma received_length (evs : list event) :
  (length (received json_loads evs) <= length evs)%nat.
Proof.
  induction evs as [|e evs IH]; simpl; [lia|].
  destruct e; try lia.
  destruct (json_loads data) as [msg|]; [|lia].
  destruct (shape_value msg); simpl; lia.
Qed.

Lemma ready_length (r : list task) :
  length r = (length (pending r) + resumes r)%nat.
Proof. induction r as [|[v|] r IH]; simpl; lia. Qed.

Lemma ticks_idle (n : nat) (l : loop) :
  ready l = [] -> run json_loads l (repeat Tick n) = l.
Proof.
  intros H. induction n as [|n IH]; [reflexivity|].
  simpl. unfold tick at 1. rewrite H. exact IH.
Qed.

Lemma tick_backlog (l : loop) :
  wf l -> ready l <> [] -> (backlog (tick l) < backlog l)%nat.
Proof.
  intros [H1 H2 H3] Hne. unfold tick, backlog.
  destruct (ready l) as [|[v|] rest] eqn:R; [congruence| |].
  - cbn [run_task]. unfold put.
    cbn [with_ready _transcripts listener ready putters yielded].
    rewrite put_nowait_unbounded by exact H1.
    destruct (listener l); simpl; rewrite ?length_app; simpl; lia.
  - cbn [run_task]. simpl in H3.
    destruct (listener l) eqn:L.
    + discriminate H3.
    + destruct H3 as [_ H3]. discriminate H3.
    + destruct H3 as [Hq _]. unfold advance, AsyncQueue.get_nowait.
      cbn [with_ready _transcripts putters ready].
      destruct (AsyncQueue.items (_transcripts l)); [congruence|].
      rewrite H2. simpl. rewrite app_nil_r. lia.
Qed.

Lemma ticks_quiesce (n : nat) (l : loop) :
  wf l -> (backlog l <= n)%nat ->
  ready (run json_loads l (repeat Tick n)) = [].
Proof.
  revert l. induction n as [|n IH]; intros l W Hn.
  - simpl. unfold backlog in Hn.
    destruct (ready l); [reflexivity | simpl in Hn; lia].
  - destruct (ready l) as [|tk rest] eqn:R.
    + rewrite ticks_idle by exact R. exact R.
    + simpl. apply IH; [apply wf_tick, W|].
      assert (ready l <> []) as Hne by (rewrite R; discriminate).
      pose proof (tick_backlog l W Hne). lia.
Qed.

Lemma nexts_deliver (n : nat) (l : loop) :
  wf l -> ready l = [] ->
  (length (AsyncQueue.items (_transcripts l)) <= n)%nat ->
  yielded (run json_loads l (repeat Next n))
    = yielded l ++ AsyncQueue.items (_transcripts l).
Proof.
  revert l. induction n as [|n IH]; intros l W R Hn.
  - simpl. destruct (AsyncQueue.items (_transcripts l)); [|simpl in Hn; lia].
    now rewrite app_nil_r.
  - simpl. pose proof (wf_next l W) as W'.
    pose proof W as [H1 H2 H3]. revert W'. unfold next.
    destruct (listener l) eqn:L.
    + unfold advance, AsyncQueue.get_nowait. rewrite H2, R.
      destruct (AsyncQueue.items (_transcripts l)) as [|x rest] eqn:E;
        intros W'.
      * rewrite IH; auto; simpl; [now rewrite E | rewrite E; simpl; lia].
      * rewrite IH; auto; simpl; [now rewrite <- app_assoc | simpl in Hn; lia].
    + intros _. destruct H3 as [E _]. rewrite IH; auto.
      rewrite E. simpl. lia.
    + intros _. destruct H3 as [_ H3]. rewrite R in H3. discriminate H3.
Qed.

Lemma wf_init : wf init.
Proof. split; simpl; auto. Qed.

(** C3: whatever the client has been through, the message handler returns
    without an exception.  A message that decodes to the recognised shape
    with a string under text.value schedules exactly one put of that
    string, which is the one transcript event added, and whenever the loop
    later runs that put the string lands at the back of the queue.  A message that does not decode, or
    whose type is not "text" (or that is not an object at all), leaves the
    client as it was: no transcript event. *)
Theorem on_message_enqueues_recognized_text_only
    (evs : list event) (data : string) :
  let l := run json_loads init evs in
  let out := _on_message json_loads data l in
  fst out = Ok tt
  /\ (forall msg s,
        json_loads data = Some msg ->
        shape_value msg = Some (JString s) ->
        snd out = with_ready l (ready l ++ [PutTranscript (JString s)])
        /\ accepted (snd out) = accepted l ++ [JString s]
        /\ forall later : list event,
             let l' := run json_loads (snd out) later in
             AsyncQueue.items (_transcripts (put (JString s) l'))
             = AsyncQueue.items (_transcripts l') ++ [JString s])
  /\ (json_loads data = None -> snd out = l)
  /\ (forall msg,
        json_loads data = Some msg -> type_is_text msg = false ->
        snd out = l).
Proof.
  intros l out. pose proof (wf_run evs init wf_init) as W. fold l in W.
  unfold out. rewrite on_message_spec. cbn [fst snd].
  split; [reflexivity|]. split; [|split].
  - intros msg s Hm Hs. rewrite Hm, Hs. split; [reflexivity|]. split.
    + unfold accepted. cbn [with_ready yielded _transcripts putters ready].
      rewrite pending_app. simpl. now rewrite <- !app_assoc.
    + intros later.
      set (l' := run json_loads _ later).
      assert (wf l') as W'.
      { apply wf_run. split; cbn [with_ready _transcripts putters listener ready];
          try apply W.
        rewrite resumes_app. simpl. rewrite Nat.add_0_r. apply W. }
      unfold put. rewrite put_nowait_unbounded by apply W'.
      destruct (listener l'); reflexivity.
  - intros ->. reflexivity.
  - intros msg Hm Ht. rewrite Hm.
    destruct (shape_value msg) as [v|] eqn:Hs; [|reflexivity].
    apply shape_value_type in Hs. congruence.
Qed.

(** C4: for a consumer that was already waiting on transcripts() of a new
    client, and for every interleaving of incoming messages, loop steps and
    consumer advances, the values yielded so far, then those queued, then
    those of the puts still scheduled, are exactly the values of the
    recognised messages in the order the messages were received; and once
    the loop has run its callbacks and the consumer has advanced often
    enough, what transcripts() has yielded is that whole sequence, in
    receipt order. *)
Theorem transcripts_yield_in_receipt_order (evs : list event) (n : nat) :
  let l := run json_loads listening evs in
  received json_loads evs
    = yielded l ++ AsyncQueue.items (_transcripts l) ++ pending (ready l)
  /\ ((length evs < n)%nat ->
      yielded (run json_loads listening (evs ++ drain n))
        = received json_loads evs).
Proof.
  intros l. pose proof (wf_run evs listening wf_listening) as W. fold l in W.
  pose proof (accepted_run evs listening wf_listening) as A. fold l in A.
  unfold accepted in A at 2. simpl in A.
  pose proof (received_length evs) as RL.
  split.
  - rewrite <- A. unfold accepted. destruct W as [_ -> _]. reflexivity.
  - intros Hn. unfold drain. rewrite !run_app. fold l.
    set (l2 := run json_loads l (repeat Tick n)).
    assert (wf l2) as W2 by (apply wf_run, W).
    assert (backlog l <= n)%nat as Hb.
    { unfold backlog. rewrite ready_length.
      assert (length (pending (ready l)) <= length (received json_loads evs))%nat.
      { rewrite <- A. unfold accepted. rewrite !length_app. lia. }
      destruct W as [_ _ H3]. destruct (listener l); lia. }
    pose proof (ticks_quiesce n l W Hb) as R2. fold l2 in R2.
    assert (accepted l2 = received json_loads evs) as A2.
    { unfold l2. rewrite accepted_run by exact W. rewrite A.
      clear. induction n as [|n IH]; simpl; [apply app_nil_r | exact IH]. }
    unfold accepted in A2. rewrite R2 in A2.
    destruct W2 as [W21 W22 W23] eqn:EW. rewrite W22 in A2. simpl in A2.
    rewrite app_nil_r in A2.
    rewrite nexts_deliver; auto.
    rewrite <- A2 in RL. rewrite length_app in RL. lia.
Qed.

(** C10: the handler does not look at the type of the value under
    text.value.  When a message decodes to an object of type "text" whose
    text object has a value that is not a string, that value is scheduled,
    queued and yielded by transcripts() unchanged. *)
Theorem non_string_value_is_yielded_unchanged
    (data : string) (msg v : json) :
  json_loads data = Some msg ->
  shape_value msg = Some v ->
  is_str v = false ->
  snd (_on_message json_loads data listening)
    = with_ready listening [PutTranscript v]
  /\ AsyncQueue.items
       (_transcripts (run json_loads listening [Message data; Tick])) = [v]
  /\ yielded (run json_loads listening [Message data; Tick; Tick]) = [v].
Proof.
  intros Hm Hs _. cbn [run fold_left on_event].
  rewrite on_message_spec, Hm, Hs. cbn [snd]. repeat split.
Qed.

End ControlFacts.

Lemma on_message_enqueues_recognized_text_only_witness :
  let out := Control._on_message JsonText.loads JsonText.msg_hello Control.init in
  fst out = Py.Ok tt
  /\ snd out = Control.with_ready Control.init
                 [Control.PutTranscript (Py.JString "hello")]
  /\ snd (Control._on_message JsonText.loads JsonText.msg_other Control.init)
     = Control.init
  /\ snd (Control._on_message JsonText.loads JsonText.msg_truncated Control.init)
     = Control.init.
Proof.
  pose proof (on_message_enqueues_recognized_text_only JsonText.loads []
                JsonText.msg_hello) as (H1 & H2 & _).
  pose proof (on_message_enqueues_recognized_text_only JsonText.loads []
                JsonText.msg_other) as (_ & _ & _ & H3).
  pose proof (on_message_enqueues_recognized_text_only JsonText.loads []
                JsonText.msg_truncated) as (_ & _ & H4 & _).
  cbv zeta. split; [exact H1|]. split; [|split].
  - exact (proj1 (H2 _ "hello" ltac:(vm_compute; reflexivity) eq_refl)).
  - exact (H3 _ ltac:(vm_compute; reflexivity) eq_refl).
  - exact (H4 ltac:(vm_compute; reflexivity)).
Defined.

Lemma transcripts_yield_in_receipt_order_witness :
  Control.yielded
    (Control.run JsonText.loads Control.listening
       ([Control.Message (JsonText.msg_text "a");
         Control.Message (JsonText.msg_text "b")]
        ++ Control.drain 3))
  = [Py.JString "a"; Py.JString "b"].
Proof.
  exact (proj2 (transcripts_yield_in_receipt_order JsonText.loads
                  [Control.Message (JsonText.msg_text "a");
                   Control.Message (JsonText.msg_text "b")] 3)
               ltac:(simpl; lia)).
Defined.

Lemma non_string_value_is_yielded_unchanged_witness :
  Control.yielded
    (Control.run JsonText.loads Control.listening
       [Control.Message JsonText.msg_number;
        Control.Tick; Control.Tick])
  = [Py.JInt 42].
Proof.
  exact (proj2 (proj2 (non_string_value_is_yielded_unchanged JsonText.loads
           JsonText.msg_number _ (Py.JInt 42)
           ltac:(vm_compute; reflexivity) eq_refl eq_refl))).
Defined.

(** ** Playback relay *)

Section PlaybackFacts.
Import Py Playback.

Lemma unit_float_bounds (v : Q) :
  int16_value v -> (- (1 # 1) <= v / (32768 # 1) /\ v / (32768 # 1) < 1 # 1)%Q.
Proof.
  destruct v as [n d]. unfold int16_value. simpl. intros [-> H].
  unfold Qdiv, Qmult, Qinv, Qle, Qlt. simpl. lia.
Qed.

Lemma rescale_other (pcm : ndarray) : dt pcm <> int16 -> rescale pcm = pcm.
Proof.
  unfold rescale. destruct (dt pcm); simpl; congruence.
Qed.

(** C9: the relay replaces an int16 array by the float32 array of its
    samples divided by 32768, every one of which lies in [-1, 1); an array
    of any other element type goes on unchanged; and the array the relay
    writes to the playback stream is this one, reshaped to the stream's
    channel count. *)
Theorem playback_rescales_int16_samples (frame : Frame) :
  let pcm := to_ndarray frame in
  (dt pcm = int16 ->
   Forall int16_value (values pcm) ->
   dt (rescale pcm) = float32
   /\ values (rescale pcm) = map (fun v => (v / (32768 # 1))%Q) (values pcm)
   /\ Forall (fun v => (- (1 # 1) <= v /\ v < 1 # 1)%Q) (values (rescale pcm)))
  /\ (dt pcm <> int16 -> rescale pcm = pcm)
  /\ (forall out,
        reshape (rescale pcm) (layout_channels frame) = Ok out ->
        play_frame Ext.quiet frame None
        = (Ok tt, Some {| status := Device.Active;
                          samplerate := sample_rate frame;
                          channels := layout_channels frame;
                          written := [out] |})).
Proof.
  intros pcm. split; [|split].
  - intros Hd Hv. unfold rescale. rewrite Hd. simpl.
    repeat split.
    induction Hv as [|v l Hv _ IH]; simpl; constructor; [|exact IH].
    apply unit_float_bounds, Hv.
  - apply rescale_other.
  - intros out Hr. unfold play_frame, Eff.bind, Eff.gets, Ext.call, Ext.quiet,
      Eff.lift.
    cbn [option_map with_status channels]. fold pcm. rewrite Hr. reflexivity.
Qed.

Lemma playback_rescales_int16_samples_witness :
  values (rescale (to_ndarray s16_frame))
  = [(-32768) # 32768; 0 # 32768; 16384 # 32768; 32767 # 32768]%Q
  /\ rescale (to_ndarray flt_frame) = to_ndarray flt_frame.
Proof.
  pose proof (playback_rescales_int16_samples s16_frame) as (H1 & _).
  pose proof (playback_rescales_int16_samples flt_frame) as (_ & H2 & _).
  split.
  - refine (proj1 (proj2 (H1 eq_refl _))).
    unfold int16_value. simpl. repeat constructor; simpl; lia.
  - apply H2. discriminate.
Defined.

End PlaybackFacts.

(** ** Session lifecycle *)

Section LifecycleFacts.
Import Py Lifecycle.

Lemma close_is_plan (e : env) (w : world) :
  close e w = run_plan e (teardown_plan w) w.
Proof.
  unfold close, mic_stop, teardown_plan, Eff.bind, Eff.gets, Ext.call, Eff.ret.
  destruct w as [c rs]. cbn [self].
  destruct (_speaker_stream c) as [sp|] eqn:Esp;
    destruct (_mic_track c) as [m|] eqn:Em;
    cbn [app run_plan teardown_effect];
    repeat match goal with
           | |- context [fault e ?s] => destruct (fault e s); try reflexivity
           end;
    cbn [on_speaker on_mic on_self self set_speaker_stream set_mic_track
         _speaker_stream _mic_track option_map];
    rewrite ?Esp, ?Em; cbn [option_map]; try reflexivity.
Qed.

Lemma run_plan_app (e : env) (p1 p2 : list Ext.site) (w : world) :
  run_plan e (p1 ++ p2) w =
  match run_plan e p1 w with
  | (Ok _, w') => run_plan e p2 w'
  | (Raise x, w') => (Raise x, w')
  end.
Proof.
  revert w. induction p1 as [|s p1 IH]; intros w; simpl; [reflexivity|].
  destruct (fault e s); [reflexivity | apply IH].
Qed.

Lemma run_plan_quiet (e : env) (p : list Ext.site) (w : world) :
  (forall s, In s p -> fault e s = None) ->
  run_plan e p w = (Ok tt, fold_left (fun w s => teardown_effect s w) p w).
Proof.
  revert w. induction p as [|s p IH]; intros w H; simpl; [reflexivity|].
  rewrite (H s (or_introl eq_refl)). apply IH. intros s' Hs'. apply H. now right.
Qed.

Lemma prefix_of_snoc {A} (X before after : list A) (c s : A) :
  X ++ [c] = before ++ s :: after -> exists Y, X = before ++ Y.
Proof.
  revert X. induction before as [|b before IH]; intros X H.
  - exists X. reflexivity.
  - destruct X as [|x X]; simpl in H.
    + injection H as _ H. destruct before; discriminate H.
    + injection H as -> H. destruct (IH X H) as [Y ->]. exists Y. reflexivity.
Qed.

Lemma plan_ends_with_close (w : world) :
  exists X, teardown_plan w = X ++ [Ext.PcClose] /\ ~ In Ext.PcClose X.
Proof.
  unfold teardown_plan.
  destruct (_speaker_stream (self w)); destruct (_mic_track (self w));
    eexists; (split; [rewrite ?app_assoc; reflexivity|]);
    simpl; intuition discriminate.
Qed.

Lemma effect_keeps_pc (s : Ext.site) (w : world) :
  s <> Ext.PcClose -> pc (self (teardown_effect s w)) = pc (self w).
Proof. destruct s; intros H; try reflexivity. congruence. Qed.

Lemma effects_keep_pc (p : list Ext.site) (w : world) :
  ~ In Ext.PcClose p ->
  pc (self (fold_left (fun w s => teardown_effect s w) p w)) = pc (self w).
Proof.
  revert w. induction p as [|s p IH]; intros w H; simpl; [reflexivity|].
  rewrite IH by (intros Hin; apply H; now right).
  apply effect_keeps_pc. intros ->. apply H. now left.
Qed.





(** C5, at the input where the code departs from it: after connect() an
    audio track arrived and its relay opened the playback stream; close()
    returns normally, the capture stream and the connection are closed, and
    the relay's playback stream is still open. *)
Theorem close_leaves_relay_playback_open :
  fst (close env_ok connected_playing) = Ok tt
  /\ capture_open (snd (close env_ok connected_playing)) = false
  /\ connection_open (snd (close env_ok connected_playing)) = false
  /\ playback_open connected_playing = 1%nat
  /\ playback_open (snd (close env_ok connected_playing)) = 1%nat.
Proof. vm_compute. repeat split. Qed.

(** C6: when the session request is answered with a status outside 2xx,
    connect() raises the HTTP status error that carries this status and
    leaves the client exactly as it was; on a new client the session id and
    the bearer are still unset, no capture track was made, and the
    connection is as built: no offer was set, so it is not half-open. *)
Theorem connect_fails_on_session_status (e : env) (w : world) :
  fault e Ext.SessionPost = None ->
  is_success (session_response e) = false ->
  connect e w = (Raise (HTTPStatusError (status_code (session_response e))), w)
  /\ (w = start ->
      session_id (self (snd (connect e w))) = None
      /\ _bearer (self (snd (connect e w))) = None
      /\ _mic_track (self (snd (connect e w))) = None
      /\ pc (self (snd (connect e w))) = new_pc
      /\ half_open (pc (self (snd (connect e w)))) = false).
Proof.
  intros Hp Hs.
  assert (connect e w
          = (Raise (HTTPStatusError (status_code (session_response e))), w)) as H.
  { unfold connect, _create_session, Eff.bind, Ext.call, Eff.lift,
      raise_for_status.
    rewrite Hp, Hs. reflexivity. }
  split; [exact H|]. intros ->. rewrite H. cbn [snd]. repeat split.
Qed.

Lemma connect_fails_on_session_status_witness :
  connect env_denied start = (Raise (HTTPStatusError 401), start).
Proof.
  exact (proj1 (connect_fails_on_session_status env_denied start
                  eq_refl eq_refl)).
Defined.

(** C7, as the code has it: close() takes its steps in order (stop and
    close of the stored playback stream if one is set, the three steps of
    the capture adapter's stop if there is one, then the close of the
    connection) and handles no exception: when a step raises, the steps
    before it have taken effect, close() raises the same exception, none of
    the later steps runs, and the connection is left as it was. *)
Theorem close_stops_at_first_failing_step
    (e : env) (w : world) (before after : list Ext.site)
    (s : Ext.site) (x : exn) :
  teardown_plan w = before ++ s :: after ->
  (forall s', In s' before -> fault e s' = None) ->
  fault e s = Some x ->
  close e w = (Raise x, fold_left (fun w s => teardown_effect s w) before w)
  /\ pc (self (snd (close e w))) = pc (self w).
Proof.
  intros Hplan Hq Hx.
  assert (close e w
          = (Raise x, fold_left (fun w s => teardown_effect s w) before w)) as H.
  { rewrite close_is_plan, Hplan, run_plan_app, run_plan_quiet by exact Hq.
    simpl. rewrite Hx. reflexivity. }
  split; [exact H|]. rewrite H. cbn [snd].
  apply effects_keep_pc.
  destruct (plan_ends_with_close w) as (X & HX & Hn).
  rewrite HX in Hplan. destruct (prefix_of_snoc _ _ _ _ _ Hplan) as [Y ->].
  intros Hin. apply Hn, in_or_app. now left.
Qed.

Lemma close_stops_at_first_failing_step_witness :
  close (env_failing Ext.MicStreamStop PortAudioError) connected
  = (Raise PortAudioError, teardown_effect Ext.TrackStop connected).
Proof.
  refine (proj1 (close_stops_at_first_failing_step
            (env_failing Ext.MicStreamStop PortAudioError) connected
            [Ext.TrackStop] [Ext.MicStreamClose; Ext.PcClose]
            Ext.MicStreamStop PortAudioError eq_refl _ eq_refl)).
  intros s' [<-|[]]. reflexivity.
Defined.

(** C7 as worded fails: when the first step of the capture adapter's stop
    raises, close() raises too, and neither is the capture stream stopped
    nor the connection closed. *)
Lemma close_failure_is_not_swallowed :
  close (env_failing Ext.TrackStop TypeError) connected
  = (Raise TypeError, connected)
  /\ capture_open connected = true
  /\ connection_open connected = true.
Proof. vm_compute. repeat split. Qed.

End LifecycleFacts.

Example loads_hello :
  JsonText.loads JsonText.msg_hello
  = Some (Py.JObject [("type", Py.JString "text");
                      ("text", Py.JObject [("value", Py.JString "hello")])]).
Proof. vm_compute. reflexivity. Qed.

Example loads_bad :
  JsonText.loads JsonText.msg_truncated = None
  /\ JsonText.loads JsonText.msg_other = Some (Py.JObject [("type", Py.JString "other")])
  /\ JsonText.loads JsonText.msg_number
     = Some (Py.JObject [("type", Py.JString "text");
                         ("text", Py.JObject [("value", Py.JInt 42)])]).
Proof. vm_compute. auto. Qed.

(** * Further properties of the code *)

(** ** Capture track under any interleaving *)

Section CaptureTraceFacts.
Import Py Capture CaptureTrace.

Lemma interleave_snoc_left {A} (k l o : list A) (x : A) :
  Interleave k l o -> Interleave (k ++ [x]) l (o ++ [x]).
Proof.
  induction 1; simpl; [repeat constructor | constructor; assumption
                      | constructor; assumption].
Qed.

Lemma interleave_snoc_right {A} (k l o : list A) (x : A) :
  Interleave k l o -> Interleave k (l ++ [x]) (o ++ [x]).
Proof.
  induction 1; simpl; [repeat constructor | constructor; assumption
                      | constructor; assumption].
Qed.

Lemma contiguous_snoc (fs : list AudioFrame) (f : AudioFrame) (start : Z) :
  contiguous start fs ->
  pts f = start + total_samples fs ->
  contiguous start (fs ++ [f]).
Proof.
  revert start. induction fs as [|g fs IH]; simpl; intros start H Hf.
  - split; [lia | exact I].
  - destruct H as [Hg H]. split; [exact Hg|]. apply IH; [exact H | lia].
Qed.

Lemma total_samples_snoc (fs : list AudioFrame) (f : AudioFrame) :
  total_samples (fs ++ [f]) = total_samples fs + Z.of_nat (samples f).
Proof.
  unfold total_samples. induction fs as [|g fs IH]; simpl; lia.
Qed.

Lemma coherent_observe (st : MicTrack * log) (o : op) :
  coherent st -> coherent (observe st o).
Proof.
  destruct st as [t lg]. intros (HI & HC & HP). destruct o as [b|];
    cbn [observe].
  - cbn [step]. rewrite callback_total. unfold dropped_by, AsyncQueue.put_nowait.
    destruct (AsyncQueue.full (_queue t)); cbn [coherent];
      cbn [offered lost delivered with_queue _queue _pts AsyncQueue.items].
    + rewrite !map_app. simpl. split; [|split; assumption].
      apply interleave_snoc_right, HI.
    + rewrite app_nil_r, !map_app, app_assoc. simpl. split; [|split; assumption].
      apply interleave_snoc_left, HI.
  - unfold recv, AsyncQueue.get_nowait.
    destruct (AsyncQueue.items (_queue t)) as [|pcm rest] eqn:E.
    + cbn [coherent]. rewrite E. auto.
    + cbn [coherent offered lost delivered _queue _pts AsyncQueue.items].
      rewrite map_app, <- app_assoc. simpl in *.
      split; [exact HI|]. split.
      * apply contiguous_snoc; [exact HC | simpl; lia].
      * rewrite total_samples_snoc. simpl. lia.
Qed.

Lemma coherent_observed (r : Z) (ops : list op) : coherent (observed r ops).
Proof.
  unfold observed.
  assert (coherent (init r, nothing)) as H0.
  { simpl. repeat split. constructor. }
  revert H0. generalize (init r, nothing). induction ops as [|o ops IH];
    intros st H; simpl; [exact H|]. apply IH, coherent_observe, H.
Qed.

(** X1: whatever the order of callbacks and reads on a new track, the
    blocks offered to the callback split, order kept, into the blocks lost
    to a full queue and the blocks kept; the kept ones are exactly the
    frames handed out so far followed by the blocks still queued.  Nothing
    is reordered, duplicated or invented. *)
Theorem capture_delivers_kept_blocks_in_order (r : Z) (ops : list op) :
  let t := fst (observed r ops) in
  let lg := snd (observed r ops) in
  Interleave (map plane (delivered lg) ++ map tobytes (AsyncQueue.items (_queue t)))
             (map tobytes (lost lg)) (map tobytes (offered lg))
  /\ (length (delivered lg) + length (AsyncQueue.items (_queue t))
      + length (lost lg) = length (offered lg))%nat.
Proof.
  intros t lg. pose proof (coherent_observed r ops) as H.
  destruct (observed r ops) as [t0 lg0] eqn:E. cbn [fst snd] in t, lg.
  destruct H as (HI & _). split; [exact HI|].
  assert (forall A (k l o : list A), Interleave k l o ->
            (length k + length l = length o)%nat) as HL.
  { induction 1; simpl; lia. }
  apply HL in HI. rewrite length_app, !length_map in HI. subst t lg. lia.
Qed.

(** X2: timestamps count the samples handed out, not the samples captured:
    under any interleaving the first frame has pts 0, every later frame
    starts where the previous one ended even when blocks were dropped in
    between, and the track's counter is the total handed out. *)
Theorem capture_timestamps_are_contiguous (r : Z) (ops : list op) :
  let t := fst (observed r ops) in
  let lg := snd (observed r ops) in
  contiguous 0 (delivered lg)
  /\ _pts t = total_samples (delivered lg)
  /\ Forall (fun f => sample_rate f = r) (delivered lg).
Proof.
  intros t lg. pose proof (coherent_observed r ops) as H.
  assert (rate (fst (observed r ops)) = r
          /\ Forall (fun f => sample_rate f = r) (delivered (snd (observed r ops))))
    as HR.
  { unfold observed.
    assert (rate (fst (init r, nothing)) = r
            /\ Forall (fun f => sample_rate f = r)
                 (delivered (snd (init r, nothing)))) as H0
      by (simpl; split; [reflexivity | constructor]).
    revert H0. generalize (init r, nothing). clear.
    induction ops as [|o ops IH]; intros st H0; simpl; [exact H0|].
    apply IH. destruct st as [t lg]. destruct H0 as [Hr Hf]. cbn [fst snd] in *.
    destruct o as [b|]; cbn [observe].
    - cbn [fst snd delivered step]. rewrite callback_total.
      destruct (AsyncQueue.full (_queue t)); auto.
    - unfold recv, AsyncQueue.get_nowait.
      destruct (AsyncQueue.items (_queue t)); cbn [fst snd delivered rate]; auto.
      split; [exact Hr|]. apply Forall_app. split; [exact Hf|].
      constructor; [exact Hr | constructor]. }
  destruct (observed r ops) as [t0 lg0]. destruct H as (_ & HC & HP).
  cbn [fst snd] in *. subst t lg. tauto.
Qed.

Lemma tobytes_length (pcm : block) :
  length (tobytes pcm) = (2 * length pcm)%nat.
Proof. induction pcm as [|s pcm IH]; simpl; [reflexivity | lia]. Qed.

Lemma tobytes_bytes (pcm : block) : Forall byte (tobytes pcm).
Proof.
  induction pcm as [|s pcm IH]; simpl; [constructor|].
  assert (0 <= s mod 65536 < 65536) by (apply Z.mod_pos_bound; lia).
  constructor; [|constructor; [|exact IH]]; unfold byte.
  - apply Z.mod_pos_bound. lia.
  - split; [apply Z.div_pos; lia | apply Z.div_lt_upper_bound; lia].
Qed.

(** X3: every frame recv() returns is a well-formed packed 16-bit mono
    frame: its byte plane has two bytes for each of its samples, every byte
    is in 0..255, and it is tagged s16, mono, with the track's rate. *)
Theorem recv_frame_is_well_formed
    (t t' : MicTrack) (f : AudioFrame) :
  recv t = Some (f, t') ->
  length (plane f) = (2 * samples f)%nat
  /\ Forall byte (plane f)
  /\ format f = "s16" /\ layout f = "mono" /\ sample_rate f = rate t
  /\ AsyncQueue.qsize (_queue t') = AsyncQueue.qsize (_queue t) - 1.
Proof.
  unfold recv, AsyncQueue.get_nowait, AsyncQueue.qsize.
  destruct (AsyncQueue.items (_queue t)) as [|pcm rest]; [discriminate|].
  intros H. injection H as <- <-.
  cbn [plane samples format layout sample_rate _queue AsyncQueue.items].
  repeat split; try apply tobytes_bytes.
  - apply tobytes_length.
  - cbn [length]. lia.
Qed.

Lemma recv_frame_is_well_formed_witness :
  exists f t',
    recv (fst (callbacks (init 24000) two_blocks)) = Some (f, t')
    /\ length (plane f) = 6%nat.
Proof.
  eexists. eexists. split; [reflexivity|].
  exact (proj1 (recv_frame_is_well_formed
                  (fst (callbacks (init 24000) two_blocks)) _ _ eq_refl)).
Defined.

End CaptureTraceFacts.

(** ** Stopping the capture track *)

Section MicStopFacts.
Import Py Lifecycle.



End MicStopFacts.

(** ** More on the control channel *)

Section ControlMoreFacts.
Import Py Control ControlTrace.

Variable json_loads : string -> option json.

(** X5: a message of type "text" whose "text" entry is missing, is not an
    object, or is an object without "value" is discarded like any other
    malformed message: the handler returns normally and the client is
    unchanged. *)
Theorem on_message_discards_malformed_text
    (data : string) (d : list (string * json)) (l : loop) :
  json_loads data = Some (JObject d) ->
  eq_str (dict_get d "type") "text" = true ->
  match dict_get d "text" with
  | None => True
  | Some (JObject t) => dict_get t "value" = None
  | Some _ => True
  end ->
  _on_message json_loads data l = (Ok tt, l).
Proof.
  intros Hd Ht Hx. rewrite on_message_spec, Hd. cbn [shape_value]. rewrite Ht.
  destruct (dict_get d "text") as [[| | | | | |t]|]; try reflexivity.
  rewrite Hx. reflexivity.
Qed.

(** X6: the handler itself never touches the transcript queue: whatever
    the message, on return the queue, the consumer and what was yielded are
    as before, and at most one task was appended to the loop's ready queue.
    A transcript becomes readable only once the loop has run that task. *)
Theorem on_message_only_schedules (data : string) (l : loop) :
  let l' := snd (_on_message json_loads data l) in
  _transcripts l' = _transcripts l
  /\ yielded l' = yielded l
  /\ listener l' = listener l
  /\ putters l' = putters l
  /\ exists new, ready l' = ready l ++ new /\ (length new <= 1)%nat.
Proof.
  cbv zeta. rewrite on_message_spec. cbn [snd].
  destruct (json_loads data) as [msg|];
    [destruct (shape_value msg) as [v|]|];
    repeat split;
    solve [ exists [PutTranscript v]; split; [reflexivity | simpl; lia]
          | exists []; split; [now rewrite app_nil_r | simpl; lia] ].
Qed.

Lemma idle_event (l : loop) (e : event) :
  wf l -> listener l = Elsewhere -> e <> Next ->
  listener (on_event json_loads l e) = Elsewhere
  /\ yielded (on_event json_loads l e) = yielded l.
Proof.
  intros W L Hn. destruct e as [data| |]; [| |congruence]; cbn [on_event].
  - rewrite on_message_spec. cbn [snd].
    destruct (json_loads data) as [msg|]; [|auto].
    destruct (shape_value msg); auto.
  - destruct W as [H1 H2 H3]. rewrite L in H3. unfold tick.
    destruct (ready l) as [|[v|] rest] eqn:R; [auto| |discriminate H3].
    cbn [run_task]. unfold put.
    cbn [with_ready _transcripts listener ready putters yielded].
    rewrite put_nowait_unbounded by exact H1. rewrite L. auto.
Qed.

Lemma idle_run (evs : list event) (l : loop) :
  wf l -> listener l = Elsewhere -> no_next evs ->
  listener (run json_loads l evs) = Elsewhere
  /\ yielded (run json_loads l evs) = yielded l.
Proof.
  revert l. induction evs as [|e evs IH]; intros l W L Hn; [auto|].
  inversion Hn as [|? ? He Hevs]; subst.
  destruct (idle_event l e W L He) as [L' Y'].
  cbn [run fold_left]. fold (run json_loads (on_event json_loads l e) evs).
  destruct (IH _ (wf_event json_loads l e W) L' Hevs) as [L2 Y2].
  rewrite L2, Y2, Y'. auto.
Qed.

Lemma no_next_ticks (n : nat) : no_next (repeat Tick n).
Proof. induction n; simpl; constructor; [discriminate | assumption]. Qed.

Lemma received_ticks (n : nat) : received json_loads (repeat Tick n) = [].
Proof. induction n; simpl; auto. Qed.

(** X7: transcripts that arrive before anyone iterates transcripts() are
    not lost: on a new client, after any messages and loop steps with no
    consumer, nothing has been yielded; once the loop has run its callbacks
    the queue holds the values of all recognised messages in receipt order;
    and a consumer that starts then is handed exactly that sequence. *)
Theorem transcripts_are_buffered_for_a_late_consumer
    (evs : list event) (n : nat) :
  no_next evs ->
  (length evs < n)%nat ->
  yielded (run json_loads init evs) = []
  /\ AsyncQueue.items (_transcripts (run json_loads init (evs ++ repeat Tick n)))
     = received json_loads evs
  /\ yielded (run json_loads init (evs ++ drain n)) = received json_loads evs.
Proof.
  intros Hn Hlen.
  set (l := run json_loads init evs).
  assert (wf l) as W by (apply wf_run, wf_init).
  destruct (idle_run evs init wf_init eq_refl Hn) as [L Y]. fold l in L, Y.
  pose proof (accepted_run json_loads evs init wf_init) as A. fold l in A.
  change (accepted init) with (@nil json) in A. simpl in A.
  pose proof (received_length json_loads evs) as RL.
  set (l2 := run json_loads l (repeat Tick n)).
  assert (wf l2) as W2 by (apply wf_run, W).
  assert (backlog l <= n)%nat as Hb.
  { unfold backlog. rewrite L, ready_length.
    assert (length (pending (ready l)) <= length (received json_loads evs))%nat.
    { rewrite <- A. unfold accepted. rewrite !length_app. lia. }
    destruct W as [_ _ H3]. rewrite L in H3. lia. }
  pose proof (ticks_quiesce json_loads n l W Hb) as R2. fold l2 in R2.
  destruct (idle_run (repeat Tick n) l W L (no_next_ticks n)) as [L2 Y2].
  fold l2 in L2, Y2.
  assert (accepted l2 = received json_loads evs) as A2.
  { unfold l2. rewrite accepted_run by exact W.
    rewrite A, received_ticks. apply app_nil_r. }
  unfold accepted in A2. rewrite R2, Y2, Y in A2.
  rewrite (wf_putters _ W2) in A2. simpl in A2.
  rewrite app_nil_r in A2.
  split; [exact Y|]. split.
  - rewrite run_app. fold l l2. exact A2.
  - unfold drain. rewrite !run_app. fold l l2.
    rewrite nexts_deliver; auto.
    + rewrite Y2, Y, A2. reflexivity.
    + rewrite A2. lia.
Qed.

End ControlMoreFacts.

Lemma on_message_discards_malformed_text_witness :
  Control._on_message JsonText.loads Samples.msg_no_text Control.init
    = (Py.Ok tt, Control.init)
  /\ Control._on_message JsonText.loads Samples.msg_text_is_string Control.init
    = (Py.Ok tt, Control.init)
  /\ Control._on_message JsonText.loads Samples.msg_no_value Control.init
    = (Py.Ok tt, Control.init).
Proof.
  split; [|split].
  - exact (on_message_discards_malformed_text JsonText.loads
             Samples.msg_no_text _ Control.init
             ltac:(vm_compute; reflexivity) eq_refl I).
  - exact (on_message_discards_malformed_text JsonText.loads
             Samples.msg_text_is_string _ Control.init
             ltac:(vm_compute; reflexivity) eq_refl I).
  - exact (on_message_discards_malformed_text JsonText.loads
             Samples.msg_no_value _ Control.init
             ltac:(vm_compute; reflexivity) eq_refl eq_refl).
Defined.

Lemma transcripts_are_buffered_for_a_late_consumer_witness :
  Control.yielded
    (Control.run JsonText.loads Control.init
       ([Control.Message (JsonText.msg_text "a"); Control.Tick;
         Control.Message JsonText.msg_other;
         Control.Message (JsonText.msg_text "b")] ++ Control.drain 5))
  = [Py.JString "a"; Py.JString "b"].
Proof.
  refine (proj2 (proj2 (transcripts_are_buffered_for_a_late_consumer
            JsonText.loads
            [Control.Message (JsonText.msg_text "a"); Control.Tick;
             Control.Message JsonText.msg_other;
             Control.Message (JsonText.msg_text "b")] 5 _ _))).
  - repeat constructor; discriminate.
  - simpl. lia.
Defined.

(** ** More on the playback relay *)

Section PlaybackMoreFacts.
Import Py Playback PlaybackTrace.

Lemma play_loop_app (env : Ext.faults) (a b : list received) (p : player) :
  play_loop env (a ++ b) p =
  match play_loop env a p with
  | (Ok _, p1) => play_loop env b p1
  | (Raise e, p1) => (Raise e, p1)
  end.
Proof.
  revert p. induction a as [|[f|e] a IH]; intros p; cbn [app play_loop];
    try reflexivity.
  unfold Eff.bind.
  destruct (play_frame env f p) as [[[]|e] p1]; [apply IH | reflexivity].
Qed.

Lemma play_frame_open (f : Frame) (sp : OutputStream) (a : ndarray) :
  reshape (rescale (to_ndarray f)) (channels sp) = Ok a ->
  play_frame Ext.quiet f (Some sp) = (Ok tt, Some (write a sp)).
Proof.
  intros H. unfold play_frame, Eff.bind, Eff.gets, Eff.ret, Eff.lift, Ext.call,
    Ext.quiet. rewrite H. reflexivity.
Qed.

Lemma play_loop_rendered (fs : list Frame) (sp : OutputStream)
    (outs : list ndarray) :
  rendered (channels sp) fs = Ok outs ->
  play_loop Ext.quiet (map Got fs) (Some sp)
  = (Ok tt, Some {| status := status sp; samplerate := samplerate sp;
                    channels := channels sp;
                    written := written sp ++ outs |}).
Proof.
  revert sp outs. induction fs as [|f fs IH]; intros sp outs H; simpl in *.
  - injection H as <-. rewrite app_nil_r. destruct sp; reflexivity.
  - destruct (reshape (rescale (to_ndarray f)) (channels sp)) as [a|] eqn:R;
      [|discriminate].
    destruct (rendered (channels sp) fs) as [l|] eqn:E; [|discriminate].
    injection H as <-. unfold Eff.bind. rewrite (play_frame_open f sp a R).
    rewrite (IH (write a sp) l E). simpl. now rewrite <- app_assoc.
Qed.

(** X8: a relay that receives frames and then the end of its track plays
    every frame, in order, each rescaled and reshaped, on a stream opened
    once with the sample rate and channel count of the first frame, then
    stops and closes that stream and finishes normally: the
    MediaStreamError does not escape.  While frames keep coming it is
    suspended with the stream active; a track that ends before any frame
    opens no stream at all. *)
Theorem play_relays_frames_until_end_of_stream
    (f : Frame) (fs : list Frame) (outs : list ndarray) :
  rendered (layout_channels f) (f :: fs) = Ok outs ->
  _play Ext.quiet (map Got (f :: fs)) None
  = (Suspended, Some {| status := Device.Active;
                        samplerate := sample_rate f;
                        channels := layout_channels f; written := outs |})
  /\ _play Ext.quiet (map Got (f :: fs) ++ [Failed MediaStreamError]) None
     = (Returned, Some {| status := Device.Closed;
                          samplerate := sample_rate f;
                          channels := layout_channels f; written := outs |})
  /\ _play Ext.quiet [Failed MediaStreamError] None = (Returned, None).
Proof.
  intros H. cbn [rendered] in H.
  destruct (reshape (rescale (to_ndarray f)) (layout_channels f)) as [a|] eqn:R;
    [|discriminate].
  destruct (rendered (layout_channels f) fs) as [l|] eqn:E; [|discriminate].
  injection H as <-.
  assert (play_loop Ext.quiet (map Got (f :: fs)) None
          = (Ok tt, Some {| status := Device.Active;
                            samplerate := sample_rate f;
                            channels := layout_channels f;
                            written := a :: l |})) as HL.
  { cbn [map play_loop]. unfold Eff.bind at 1.
    assert (play_frame Ext.quiet f None
            = (Ok tt, Some {| status := Device.Active;
                              samplerate := sample_rate f;
                              channels := layout_channels f;
                              written := [a] |})) as ->.
    { unfold play_frame, Eff.bind, Eff.gets, Ext.call, Ext.quiet, Eff.lift.
      cbn [option_map with_status channels]. rewrite R. reflexivity. }
    rewrite (play_loop_rendered fs
               {| status := Device.Active; samplerate := sample_rate f;
                  channels := layout_channels f; written := [a] |} l E).
    reflexivity. }
  split; [|split].
  - unfold _play. rewrite HL. reflexivity.
  - unfold _play. rewrite play_loop_app, HL. reflexivity.
  - reflexivity.
Qed.

Lemma play_relays_frames_until_end_of_stream_witness :
  fst (_play Ext.quiet
         (map Got [s16_frame; flt_frame] ++ [Failed MediaStreamError]) None)
  = Returned.
Proof.
  assert (exists outs, rendered (layout_channels s16_frame)
                         [s16_frame; flt_frame] = Ok outs) as [outs H]
    by (eexists; reflexivity).
  pose proof (play_relays_frames_until_end_of_stream s16_frame [flt_frame] outs H)
    as (_ & H2 & _).
  exact (f_equal fst H2).
Defined.

(** X9: the relay never finishes with its playback stream open: whenever
    [_play] has ended, normally or by an exception, and whatever calls failed
    on the way, the stream it had opened is closed, provided only that the
    stop and close calls themselves return. *)
Theorem play_never_ends_holding_the_device
    (env : Ext.faults) (inputs : list received) (p : player) :
  env Ext.SpeakerStop = None ->
  env Ext.SpeakerClose = None ->
  fst (_play env inputs p) <> Suspended ->
  holds_device (snd (_play env inputs p)) = false.
Proof.
  intros H1 H2. unfold _play.
  destruct (play_loop env inputs p) as [[[]|e] p1];
    [intros H; exfalso; apply H; reflexivity|]. intros _.
  unfold Eff.try_finally, Eff.try_except, Eff.raise, release, Eff.bind,
    Eff.gets, Eff.ret, Ext.call.
  destruct (is_MediaStreamError e); destruct p1 as [sp|];
    rewrite ?H1, ?H2; reflexivity.
Qed.

Lemma play_never_ends_holding_the_device_witness :
  holds_device (snd (_play write_fails [Got s16_frame] None)) = false.
Proof.
  apply play_never_ends_holding_the_device; try reflexivity.
  vm_compute. discriminate.
Defined.

(** X10: how the relay ends depends only on the exception that left the
    loop: after frames that played, a MediaStreamError from recv() ends the
    task normally, and any other exception (a cancellation, a device error)
    escapes from the task after the stream was stopped and closed; nothing
    that arrives after the failure is read. *)
Theorem play_swallows_only_media_stream_error
    (env : Ext.faults) (pre rest : list received) (p p1 : player) (e : exn) :
  env Ext.SpeakerStop = None ->
  env Ext.SpeakerClose = None ->
  play_loop env pre p = (Ok tt, p1) ->
  _play env (pre ++ Failed e :: rest) p
  = (if is_MediaStreamError e then Returned else Escaped e,
     option_map (with_status Device.Closed) p1).
Proof.
  intros H1 H2 HL. unfold _play. rewrite play_loop_app, HL. cbn [play_loop].
  unfold Eff.try_finally, Eff.try_except, Eff.raise, release, Eff.bind,
    Eff.gets, Eff.ret, Ext.call.
  destruct (is_MediaStreamError e); destruct p1 as [sp|];
    rewrite ?H1, ?H2; reflexivity.
Qed.

Lemma play_swallows_only_media_stream_error_witness :
  fst (_play Ext.quiet ([Got s16_frame] ++ [Failed CancelledError; Got flt_frame])
         None)
  = Escaped CancelledError.
Proof.
  exact (f_equal fst
           (play_swallows_only_media_stream_error Ext.quiet [Got s16_frame]
              [Got flt_frame] None _ CancelledError eq_refl eq_refl eq_refl)).
Defined.

(** X11: the stream keeps the channel count it was opened with.  A frame
    whose number of samples is not a multiple of that count cannot be
    reshaped: the ValueError ends the relay, nothing of that frame or of
    later ones is written, and the stream is stopped and closed. *)
Theorem play_ends_on_frame_that_does_not_fit
    (f : Frame) (rest : list received) (sp : OutputStream) :
  (length (values (to_ndarray f)) mod channels sp <> 0)%nat ->
  _play Ext.quiet (Got f :: rest) (Some sp)
  = (Escaped ValueError, Some (with_status Device.Closed sp)).
Proof.
  intros H.
  assert (reshape (rescale (to_ndarray f)) (channels sp) = Raise ValueError) as R.
  { unfold reshape.
    assert (length (values (rescale (to_ndarray f)))
            = length (values (to_ndarray f))) as ->.
    { unfold rescale. destruct (dtype_eqb _ _); [|reflexivity].
      simpl. apply length_map. }
    destruct (channels sp) as [|c]; [reflexivity|].
    destruct (Nat.eqb_spec (length (values (to_ndarray f)) mod S c) 0);
      [contradiction | reflexivity]. }
  unfold _play. cbn [play_loop]. unfold Eff.bind at 1.
  unfold play_frame, Eff.bind, Eff.gets, Eff.ret, Eff.lift. rewrite R.
  reflexivity.
Qed.

Lemma play_ends_on_frame_that_does_not_fit_witness :
  fst (_play Ext.quiet [Got odd_stereo_frame] None) = Escaped ValueError
  /\ holds_device (snd (_play Ext.quiet [Got odd_stereo_frame] None)) = false.
Proof.
  pose proof (play_ends_on_frame_that_does_not_fit odd_stereo_frame []
                {| status := Device.Active; samplerate := 48000;
                   channels := 2; written := [] |}
                ltac:(simpl; discriminate)) as H.
  split; [exact (f_equal fst H) | exact (f_equal (fun r => holds_device (snd r)) H)].
Defined.

End PlaybackMoreFacts.

(** ** Inbound tracks *)

Section InboundFacts.
Import Py Lifecycle Inbound.

(** X12: announcing tracks opens no device.  Each track of kind "audio"
    adds one relay whose stream is still unopened, a track of any other kind
    adds nothing, and the client object, the relays already there and the
    number of open playback streams are unchanged. *)
Theorem tracks_start_relays_without_opening_devices
    (kinds : list string) (w : world) :
  let w' := tracks_arrive kinds w in
  self w' = self w
  /\ relays w' = relays w ++ repeat None (audio_count kinds)
  /\ playback_open w' = playback_open w.
Proof.
  cbv zeta. revert w. unfold tracks_arrive, audio_count.
  induction kinds as [|k kinds IH]; intros w; cbn [fold_left filter].
  - simpl. rewrite app_nil_r. auto.
  - destruct (IH (_on_track k w)) as (I1 & I2 & I3).
    rewrite I1, I2, I3. unfold _on_track, playback_open.
    destruct (String.eqb k "audio"); cbn [negb self relays length repeat].
    + rewrite <- app_assoc. simpl. repeat split.
      rewrite filter_app, length_app. simpl. lia.
    + auto.
Qed.




End InboundFacts.

(** ** More on the session lifecycle *)

Section LifecycleMoreFacts.
Import Py Lifecycle Negotiation.

(** X13: for a 2xx session answer that is a JSON document,
    _create_session stores what it finds and stops at what it misses: with
    no "id" it raises and the client is unchanged; with an "id" but no
    client_secret.value it raises after the session id was stored, the
    bearer still as before; with both it stores both. *)
Theorem create_session_stores_what_it_finds (e : env) (w : world) (js : json) :
  fault e Ext.SessionPost = None ->
  is_success (session_response e) = true ->
  body (session_response e) = Some js ->
  _create_session e w =
  match getitem js "id" with
  | Raise x => (Raise x, w)
  | Ok id =>
      match bearer_of js with
      | Raise x => (Raise x, on_self (set_session_id id) w)
      | Ok tok => (Ok tt, on_self (set_bearer tok) (on_self (set_session_id id) w))
      end
  end.
Proof.
  intros Hp Hs Hb.
  unfold _create_session, Eff.bind, Ext.call, Eff.lift, Eff.modify,
    raise_for_status, response_json, bearer_of.
  rewrite Hp, Hs, Hb.
  destruct (getitem js "id") as [id|x]; [|reflexivity].
  destruct (getitem js "client_secret") as [secret|x]; [|reflexivity].
  destruct (getitem secret "value") as [tok|x]; reflexivity.
Qed.

Lemma create_session_stores_what_it_finds_witness :
  _create_session env_without_secret start
  = (Raise (KeyError "client_secret"),
     on_self (set_session_id (JString "sess1")) start).
Proof.
  exact (create_session_stores_what_it_finds env_without_secret start _
           eq_refl eq_refl eq_refl).
Defined.

Lemma create_session_ok (e : env) (w : world) (js id tok : json) :
  fault e Ext.SessionPost = None ->
  is_success (session_response e) = true ->
  body (session_response e) = Some js ->
  getitem js "id" = Ok id -> bearer_of js = Ok tok ->
  _create_session e w
  = (Ok tt, on_self (set_bearer tok) (on_self (set_session_id id) w)).
Proof.
  intros Hp Hs Hb Hi Ht. unfold bearer_of in Ht.
  unfold _create_session, Eff.bind, Ext.call, Eff.lift, Eff.modify,
    raise_for_status, response_json.
  rewrite Hp, Hs, Hb, Hi.
  destruct (getitem js "client_secret") as [secret|x]; [|discriminate].
  rewrite Ht. reflexivity.
Qed.

Lemma connect_granted_state (e : env) (js id tok : json) :
  answers e js -> getitem js "id" = Ok id -> bearer_of js = Ok tok ->
  connect e start
  = (Ok tt,
     {| self := negotiated e id tok (Some (text (handshake_response e)));
        relays := [] |}).
Proof.
  intros A Hi Ht. pose proof A as (Q & Hs & Hh & Hb).
  unfold connect. unfold Eff.bind at 1.
  rewrite (create_session_ok e start js id tok (Q _) Hs Hb Hi Ht).
  unfold Eff.bind, Ext.call, Eff.modify, Eff.gets, Eff.lift, Eff.ret,
    raise_for_status.
  rewrite !Q, Hh. reflexivity.
Qed.

Lemma connect_refused_state (e : env) (js id tok : json) :
  (forall s, fault e s = None) ->
  is_success (session_response e) = true ->
  body (session_response e) = Some js ->
  getitem js "id" = Ok id ->
  bearer_of js = Ok tok ->
  is_success (handshake_response e) = false ->
  connect e start
  = (Raise (HTTPStatusError (status_code (handshake_response e))),
     {| self := negotiated e id tok None; relays := [] |}).
Proof.
  intros Q Hs Hb Hi Ht Hh.
  unfold connect. unfold Eff.bind at 1.
  rewrite (create_session_ok e start js id tok (Q _) Hs Hb Hi Ht).
  unfold Eff.bind, Ext.call, Eff.modify, Eff.gets, Eff.lift, Eff.ret,
    raise_for_status.
  rewrite !Q, Hh. reflexivity.
Qed.

(** X14: when every call returns, both answers are 2xx and the session
    answer carries an id and client_secret.value, connect() on a new client
    returns normally with the id and the bearer stored, one capture track
    made, started and given to the connection, both handlers registered,
    the offer and the answer set, and no relay yet. *)
Theorem connect_establishes_the_session (e : env) (js id tok : json) :
  answers e js ->
  getitem js "id" = Ok id ->
  bearer_of js = Ok tok ->
  let w := snd (connect e start) in
  fst (connect e start) = Ok tt
  /\ session_id (self w) = Some id
  /\ _bearer (self w) = Some tok
  /\ _mic_track (self w) = Some (Capture.init Capture.default_rate)
  /\ capture_open w = true
  /\ pc (self w)
     = {| closed := false; senders := 1; track_handler := true;
          datachannel_handler := true;
          localDescription := Some (offer_sdp e);
          remoteDescription := Some (text (handshake_response e)) |}
  /\ half_open (pc (self w)) = false
  /\ relays w = [].
Proof.
  intros A Hi Ht. cbv zeta.
  rewrite (connect_granted_state e js id tok A Hi Ht). cbn [fst snd].
  repeat split.
Qed.

Lemma connect_establishes_the_session_witness :
  fst (connect env_ok start) = Ok tt
  /\ _bearer (self (snd (connect env_ok start))) = Some (JString "tok").
Proof.
  assert (answers env_ok (JObject [("id", JString "sess1");
            ("client_secret", JObject [("value", JString "tok")])])) as A
    by (repeat split).
  pose proof (connect_establishes_the_session env_ok _ (JString "sess1")
                (JString "tok") A eq_refl eq_refl) as (H1 & _ & H3 & _).
  split; assumption.
Defined.

(** X15: when the SDP exchange is answered with a status outside 2xx,
    connect() raises the HTTP status error of that answer and does not undo
    what it did before: the session id and bearer are stored, the capture
    stream is open and capturing, and the connection has its offer set and
    no answer: it is half-open until the caller closes the client. *)
Theorem connect_handshake_failure_leaves_capture_open
    (e : env) (js id tok : json) :
  (forall s, fault e s = None) ->
  is_success (session_response e) = true ->
  body (session_response e) = Some js ->
  getitem js "id" = Ok id ->
  bearer_of js = Ok tok ->
  is_success (handshake_response e) = false ->
  let w := snd (connect e start) in
  fst (connect e start)
    = Raise (HTTPStatusError (status_code (handshake_response e)))
  /\ session_id (self w) = Some id
  /\ _bearer (self w) = Some tok
  /\ capture_open w = true
  /\ connection_open w = true
  /\ half_open (pc (self w)) = true
  /\ remoteDescription (pc (self w)) = None.
Proof.
  intros Q Hs Hb Hi Ht Hh. cbv zeta.
  rewrite (connect_refused_state e js id tok Q Hs Hb Hi Ht Hh). cbn [fst snd].
  repeat split.
Qed.

Lemma connect_handshake_failure_leaves_capture_open_witness :
  fst (connect env_refused start) = Raise (HTTPStatusError 403)
  /\ capture_open (snd (connect env_refused start)) = true.
Proof.
  pose proof (connect_handshake_failure_leaves_capture_open env_refused _
                (JString "sess1") (JString "tok")
                (fun _ => eq_refl) eq_refl eq_refl eq_refl eq_refl eq_refl)
    as (H1 & _ & _ & H4 & _).
  split; assumption.
Defined.

(** X16: when the capture track cannot be made (the device call raises),
    connect() raises that error after the session was negotiated: the
    session id and the bearer are stored, but no track exists, nothing was
    given to the connection and no offer was made. *)
Theorem connect_without_microphone_stops_after_session
    (e : env) (js id tok : json) (x : exn) :
  fault e Ext.SessionPost = None ->
  is_success (session_response e) = true ->
  body (session_response e) = Some js ->
  getitem js "id" = Ok id ->
  bearer_of js = Ok tok ->
  fault e Ext.MicTrackInit = Some x ->
  connect e start
  = (Raise x, on_self (set_bearer tok) (on_self (set_session_id id) start)).
Proof.
  intros Hp Hs Hb Hi Ht Hm.
  unfold connect. unfold Eff.bind at 1.
  rewrite (create_session_ok e start js id tok Hp Hs Hb Hi Ht).
  unfold Eff.bind at 1. unfold Ext.call at 1. rewrite Hm. reflexivity.
Qed.

Lemma connect_without_microphone_stops_after_session_witness :
  fst (connect env_no_microphone start) = Raise PortAudioError
  /\ pc (self (snd (connect env_no_microphone start))) = new_pc.
Proof.
  pose proof (connect_without_microphone_stops_after_session env_no_microphone
                _ (JString "sess1") (JString "tok") PortAudioError
                eq_refl eq_refl eq_refl eq_refl eq_refl eq_refl) as H.
  split; [exact (f_equal fst H) | exact (f_equal (fun r => pc (self (snd r))) H)].
Defined.






End LifecycleMoreFacts.

(** ** The chat front end *)

Section AppFacts.
Import Py App Negotiation.


Lemma live_messages_send (s : session) (m : message) :
  live_messages (snd (send m s))
  = (live_messages s + match m with MicLive => 1 | _ => 0 end)%nat.
Proof.
  unfold live_messages, send, Eff.modify. cbn [snd sent].
  rewrite filter_app, length_app. destruct m; reflexivity.
Qed.

Lemma cb_start_eq (e : Lifecycle.env) (s : session) :
  cb_start e s =
  match rtc s with
  | Some _ => send AlreadyLive s
  | None =>
      match Lifecycle.connect e Lifecycle.start with
      | (Ok _, w) => send MicLive (spawn_relay (set_rtc (Some w) s))
      | (Raise x, w) => (Raise x, discard w s)
      end
  end.
Proof.
  unfold cb_start, _toggle_session, Eff.bind, Eff.gets, connect_new, Eff.modify.
  change (String.eqb "start" "start") with true. cbv beta iota.
  destruct (rtc s); [reflexivity|].
  destruct (Lifecycle.connect e Lifecycle.start) as [[[]|x] w]; reflexivity.
Qed.

Lemma cb_stop_eq (e : Lifecycle.env) (s : session) :
  cb_stop e s =
  match rtc s with
  | Some w =>
      match Lifecycle.close e w with
      | (Ok _, w') => send MicClosed (discard w' (set_rtc None s))
      | (Raise x, w') => (Raise x, set_rtc (Some w') s)
      end
  | None => send MicClosed s
  end.
Proof.
  unfold cb_stop, _toggle_session, Eff.bind, Eff.gets, close_stored, Eff.ret.
  change (String.eqb "stop" "start") with false. cbv beta iota.
  destruct (rtc s) as [w|]; [|reflexivity].
  destruct (Lifecycle.close e w) as [[[]|x] w']; reflexivity.
Qed.





(** X19: a start whose connect() fails leaks what connect() had acquired.
    When the session is granted but the SDP offer is refused, the callback
    raises the HTTP status error, sends no message and stores no client;
    the client it had built is dropped without close() with its capture
    stream open and its connection half-open, and nothing in the session
    refers to it any more. *)
Theorem failed_start_drops_the_client_unclosed
    (e : Lifecycle.env) (js id tok : json) (s : session) :
  rtc s = None ->
  (forall st, Lifecycle.fault e st = None) ->
  Lifecycle.is_success (Lifecycle.session_response e) = true ->
  Lifecycle.body (Lifecycle.session_response e) = Some js ->
  getitem js "id" = Ok id ->
  bearer_of js = Ok tok ->
  Lifecycle.is_success (Lifecycle.handshake_response e) = false ->
  exists w,
    cb_start e s
    = (Raise (HTTPStatusError
                (Lifecycle.status_code (Lifecycle.handshake_response e))),
       discard w s)
    /\ Lifecycle.capture_open w = true
    /\ Lifecycle.connection_open w = true
    /\ Lifecycle.half_open (Lifecycle.pc (Lifecycle.self w)) = true.
Proof.
  intros R Q Hs Hb Hi Ht Hh.
  exists {| Lifecycle.self := negotiated e id tok None; Lifecycle.relays := [] |}.
  split; [|repeat split].
  rewrite cb_start_eq, R.
  rewrite (connect_refused_state e js id tok Q Hs Hb Hi Ht Hh). reflexivity.
Qed.

Lemma failed_start_drops_the_client_unclosed_witness :
  exists w,
    snd (cb_start env_refused (snd (chat_start empty)))
    = discard w (snd (chat_start empty))
    /\ Lifecycle.capture_open w = true.
Proof.
  destruct (failed_start_drops_the_client_unclosed env_refused _
              (JString "sess1") (JString "tok") (snd (chat_start empty))
              eq_refl (fun _ => eq_refl) eq_refl eq_refl eq_refl eq_refl eq_refl)
    as (w & H1 & H2 & _).
  exists w. split; [exact (f_equal snd H1) | exact H2].
Defined.

(** X20: a stop whose close() fails leaves the session marked live.  The
    callback raises the error of close(), sends no message and keeps the
    client, as close() left it, under "rtc"; a start after that, whatever
    the outside would answer, only reports that the microphone is already
    live and connects nothing. *)
Theorem failed_stop_keeps_the_session_live
    (e e2 : Lifecycle.env) (s : session) (w w' : Lifecycle.world) (x : exn) :
  rtc s = Some w ->
  Lifecycle.close e w = (Raise x, w') ->
  cb_stop e s = (Raise x, set_rtc (Some w') s)
  /\ cb_start e2 (set_rtc (Some w') s)
     = (Ok tt, snd (send AlreadyLive (set_rtc (Some w') s))).
Proof.
  intros R C. split.
  - rewrite cb_stop_eq, R, C. reflexivity.
  - rewrite cb_start_eq. reflexivity.
Qed.

Lemma failed_stop_keeps_the_session_live_witness :
  let s := after [(Lifecycle.env_ok, start_talking)] in
  fst (cb_stop (Lifecycle.env_failing Ext.PcClose ConnectError) s)
  = Raise ConnectError
  /\ sent (snd (cb_stop (Lifecycle.env_failing Ext.PcClose ConnectError) s))
     = [Welcome; MicLive].
Proof.
  cbv zeta.
  pose proof (failed_stop_keeps_the_session_live
                (Lifecycle.env_failing Ext.PcClose ConnectError)
                Lifecycle.env_ok
                (after [(Lifecycle.env_ok, start_talking)])
                Lifecycle.connected _ ConnectError eq_refl eq_refl) as (H & _).
  split; [exact (f_equal fst H) | exact (f_equal (fun r => sent (snd r)) H)].
Defined.

End AppFacts.

(** ** Required settings *)

Section ConfigFacts.
Import Py Config.

(** X21: the settings load exactly when the endpoint, the deployment and
    the region are all set to non-empty strings, and then they are the values
    read; an empty value counts as a missing one.  The API key is never
    required: unset, it is the empty string, and the session request then
    carries no api-key header. *)
Theorem settings_load_iff_required_present (getenv : string -> option string) :
  (forall c, load getenv = Ok c ->
     getenv "AZURE_OPENAI_ENDPOINT" = Some (AZ_ENDPOINT c)
     /\ getenv "AZURE_OPENAI_DEPLOYMENT" = Some (AZ_DEPLOY c)
     /\ getenv "AZURE_OPENAI_REGION" = Some (REGION c)
     /\ AZ_ENDPOINT c <> "" /\ AZ_DEPLOY c <> "" /\ REGION c <> ""
     /\ (getenv "AZURE_OPENAI_API_KEY" = None -> session_headers c = None))
  /\ (load getenv = Raise RuntimeError <->
      falsy (getenv "AZURE_OPENAI_ENDPOINT") = true
      \/ falsy (getenv "AZURE_OPENAI_DEPLOYMENT") = true
      \/ falsy (getenv "AZURE_OPENAI_REGION") = true).
Proof.
  unfold load.
  destruct (getenv "AZURE_OPENAI_ENDPOINT") as [a|];
    destruct (getenv "AZURE_OPENAI_DEPLOYMENT") as [d|];
    destruct (getenv "AZURE_OPENAI_REGION") as [r|];
    cbn [falsy orb]; rewrite ?orb_true_r;
    try (split; [intros c H; discriminate H | split; auto]).
  destruct (String.eqb_spec a ""), (String.eqb_spec d ""), (String.eqb_spec r "");
    cbn [orb];
    try (split; [intros c H; discriminate H | split; auto]).
  split.
  - intros c H. injection H as <-. cbn. repeat split; auto.
    intros ->. reflexivity.
  - split; [discriminate | intros [H|[H|H]]; discriminate H].
Qed.

Lemma settings_load_iff_required_present_witness :
  exists c, load keyless = Ok c /\ session_headers c = None.
Proof.
  eexists. split; [reflexivity|].
  destruct (settings_load_iff_required_present keyless) as [H _].
  exact (proj2 (proj2 (proj2 (proj2 (proj2 (proj2 (H _ eq_refl)))))) eq_refl).
Defined.

End ConfigFacts.
